(** * Solar tracker: the control loop of [scripts/solar_tracker_keyframe.py]

    A shallow embedding of the class [SolarSystem] and of the part of the
    host (Blender's [bpy.data.objects]) that the class writes to, followed
    by the properties of the tracking algorithm.

    Conventions.
    - Python integers are [Z].
    - The five command strings are the constructors of [direction].
    - [math.radians d] is kept symbolic: the host stores [math.radians d]
      and the theorems speak about the degree value [d] that was converted.
    - A Python exception is identified by the name of its class, except
      the one that Pillow raises when it saves a raster without pixels:
      its class is Pillow's choice and is left unnamed.  An exception that
      leaves [iterate] ends the driver loop, so no world is kept after it.
    - The rendered frame is an input of every iteration: rendering is the
      host's business.
    - The host is storage: a motor angle changes only when the tracker
      assigns it, and a keyframe list only when the tracker inserts into
      it.  What Blender's animation system does with the keyframes when
      the scene frame is set is outside this development. *)

From Stdlib Require Import ZArith List String Bool Lia.
From Stdlib Require Finite.
Import ListNotations.
Open Scope Z_scope.

(** ** Exceptions and outcomes *)

Inductive exn : Type :=
| named (class_name : string)
| of_pillow.

Inductive outcome (A : Type) : Type :=
| Returned (a : A)
| Raised (e : exn).
Arguments Returned {A} a.
Arguments Raised {A} e.

Definition bind {A B : Type} (c : outcome A) (k : A -> outcome B) : outcome B :=
  match c with
  | Returned a => k a
  | Raised e => Raised e
  end.

Notation "x <- c ;; k" := (bind c (fun x => k))
  (at level 61, c at next level, right associativity).

(** ** [math] *)

Module math.

Inductive angle : Type :=
| radians (deg : Z).

Definition degrees (a : angle) : Z :=
  match a with radians d => d end.

End math.

(** ** Command strings *)

Inductive direction : Type := RIGHT | LEFT | DOWN | UP | CENTER.

Definition direction_eqb (a b : direction) : bool :=
  match a, b with
  | RIGHT, RIGHT | LEFT, LEFT | DOWN, DOWN | UP, UP | CENTER, CENTER => true
  | _, _ => false
  end.

(** [self.dir_x == "..."]: the attribute is [None] before the first
    iteration, and [None] equals no string. *)
Definition is_dir (d : option direction) (c : direction) : bool :=
  match d with
  | Some d' => direction_eqb d' c
  | None => false
  end.

(** ** Frames and the OpenCV calls of the locator *)

Definition rgba : Type := Z * Z * Z * Z.
Definition bgr : Type := Z * Z * Z.

(** A raster of shape (height, width, channels): a list of rows. *)
Definition Mat (A : Type) : Type := list (list A).

Module cv2.

Definition error : exn := named "cv2.error".

(** A raster without pixels: no row, or rows of width zero. *)
Definition empty {A : Type} (m : Mat A) : bool :=
  match m with
  | [] => true
  | [] :: _ => true
  | (_ :: _) :: _ => false
  end.

(** [cv2.cvtColor src code]: converts pixel by pixel and keeps the shape;
    OpenCV rejects an empty source with [cv2.error]. *)
Definition cvtColor {A B : Type} (convert : A -> B) (src : Mat A) : outcome (Mat B) :=
  if empty src then Raised error else Returned (map (map convert) src).

Definition COLOR_RGBA2BGR (p : rgba) : bgr :=
  let '(r, g, b, _) := p in (b, g, r).

(** One row of the scan of [minMaxLoc]: [acc] is the best value so far with
    its location; a later element replaces it only when strictly better. *)
Fixpoint scan_row (better : Z -> Z -> bool) (y x : Z) (row : list Z)
    (acc : option (Z * (Z * Z))) : option (Z * (Z * Z)) :=
  match row with
  | [] => acc
  | v :: row' =>
      let acc' :=
        match acc with
        | None => Some (v, (x, y))
        | Some (m, _) => if better v m then Some (v, (x, y)) else acc
        end in
      scan_row better y (x + 1) row' acc'
  end.

Fixpoint scan_rows (better : Z -> Z -> bool) (y : Z) (rows : Mat Z)
    (acc : option (Z * (Z * Z))) : option (Z * (Z * Z)) :=
  match rows with
  | [] => acc
  | row :: rows' => scan_rows better (y + 1) rows' (scan_row better y 0 row acc)
  end.

(** [cv2.minMaxLoc gray]: (minVal, maxVal, minLoc, maxLoc), locations as
    (x, y) = (column, row), the first extremum in row-major order. *)
Definition minMaxLoc (gray : Mat Z) : Z * Z * (Z * Z) * (Z * Z) :=
  let lo := scan_rows (fun v m => v <? m) 0 gray None in
  let hi := scan_rows (fun v m => m <? v) 0 gray None in
  match lo, hi with
  | Some (mn, mnl), Some (mx, mxl) => (mn, mx, mnl, mxl)
  | _, _ => (0, 0, (-1, -1), (-1, -1))
  end.

End cv2.

(** ** The Pillow calls of the sensor *)

Module PIL.

(** What [Image.save] raises for an image without pixels. *)
Definition error : exn := of_pillow.

(** [Image.fromarray obj mode]: the image has the pixels of the array. *)
Definition fromarray {A : Type} (obj : Mat A) : Mat A := obj.

(** [img.save filename]: Pillow refuses to encode an image of width or
    height zero; the file that is written otherwise is not modelled. *)
Definition save {A : Type} (img : Mat A) : outcome unit :=
  if cv2.empty img then Raised error else Returned tt.

End PIL.

(** ** The object and the host *)

(** The attributes of [self].  Left out: [iteration_time] (never read),
    [image] (the annotated debug picture) and [scene] (a host handle). *)
Record SolarSystem : Type := mkSolarSystem {
  tilt : Z;
  rotation : Z;
  step : Z;
  impossible_move : bool;
  dir_x : option direction;
  dir_y : option direction;
  data : option (Mat rgba);
  gray : option (Mat Z);
  res_x : Z;
  res_y : Z;
  center : Z;
  t : Z;
  frame_no : Z;
  frame_step : Z
}.

(** A motor object of the scene: the component of [rotation_euler] that the
    tracker drives, and the keyframes inserted on it, oldest first, each
    with the frame it was inserted at and the value it captured. *)
Record Motor : Type := mkMotor {
  rotation_euler : math.angle;
  keyframes : list (Z * math.angle)
}.

(** [bpy.data.objects]. *)
Record Objects : Type := mkObjects {
  motor_tilt : Motor;
  motor_rotate : Motor
}.

Record World : Type := mkWorld {
  self : SolarSystem;
  objects : Objects
}.

(** *** Attribute assignment *)

Definition set_tilt (v : Z) (s : SolarSystem) : SolarSystem :=
  mkSolarSystem v (rotation s) (step s) (impossible_move s) (dir_x s) (dir_y s)
    (data s) (gray s) (res_x s) (res_y s) (center s) (t s) (frame_no s) (frame_step s).

Definition set_rotation (v : Z) (s : SolarSystem) : SolarSystem :=
  mkSolarSystem (tilt s) v (step s) (impossible_move s) (dir_x s) (dir_y s)
    (data s) (gray s) (res_x s) (res_y s) (center s) (t s) (frame_no s) (frame_step s).

Definition set_impossible_move (v : bool) (s : SolarSystem) : SolarSystem :=
  mkSolarSystem (tilt s) (rotation s) (step s) v (dir_x s) (dir_y s)
    (data s) (gray s) (res_x s) (res_y s) (center s) (t s) (frame_no s) (frame_step s).

Definition set_dir_x (v : option direction) (s : SolarSystem) : SolarSystem :=
  mkSolarSystem (tilt s) (rotation s) (step s) (impossible_move s) v (dir_y s)
    (data s) (gray s) (res_x s) (res_y s) (center s) (t s) (frame_no s) (frame_step s).

Definition set_dir_y (v : option direction) (s : SolarSystem) : SolarSystem :=
  mkSolarSystem (tilt s) (rotation s) (step s) (impossible_move s) (dir_x s) v
    (data s) (gray s) (res_x s) (res_y s) (center s) (t s) (frame_no s) (frame_step s).

Definition set_data (v : option (Mat rgba)) (s : SolarSystem) : SolarSystem :=
  mkSolarSystem (tilt s) (rotation s) (step s) (impossible_move s) (dir_x s) (dir_y s)
    v (gray s) (res_x s) (res_y s) (center s) (t s) (frame_no s) (frame_step s).

Definition set_gray (v : option (Mat Z)) (s : SolarSystem) : SolarSystem :=
  mkSolarSystem (tilt s) (rotation s) (step s) (impossible_move s) (dir_x s) (dir_y s)
    (data s) v (res_x s) (res_y s) (center s) (t s) (frame_no s) (frame_step s).

Definition set_frame_no (v : Z) (s : SolarSystem) : SolarSystem :=
  mkSolarSystem (tilt s) (rotation s) (step s) (impossible_move s) (dir_x s) (dir_y s)
    (data s) (gray s) (res_x s) (res_y s) (center s) (t s) v (frame_step s).

Definition set_self (s : SolarSystem) (w : World) : World :=
  mkWorld s (objects w).

(** [bpy.data.objects['motor_tilt'].rotation_euler[1] = a] *)
Definition set_motor_tilt (a : math.angle) (w : World) : World :=
  mkWorld (self w)
    (mkObjects (mkMotor a (keyframes (motor_tilt (objects w))))
               (motor_rotate (objects w))).

(** [bpy.data.objects['motor_rotate'].rotation_euler[2] = a] *)
Definition set_motor_rotate (a : math.angle) (w : World) : World :=
  mkWorld (self w)
    (mkObjects (motor_tilt (objects w))
               (mkMotor a (keyframes (motor_rotate (objects w))))).

(** [obj.keyframe_insert(data_path="rotation_euler", index=i, frame=f)]:
    records the present value of the driven component at frame [f].  The
    list is the log of the insertions, in the order of the calls. *)
Definition keyframe_insert (f : Z) (m : Motor) : Motor :=
  mkMotor (rotation_euler m) (keyframes m ++ [(f, rotation_euler m)]).

(** ** [SolarSystem.__init__] *)

Definition __init__ (scene : Objects) : World :=
  let tilt0 := 0 in
  let rotation0 := 0 in
  let res_x0 := 512 in
  let res_y0 := 512 in
  let w := mkWorld
    (mkSolarSystem tilt0 rotation0 1 false None None None None
       res_x0 res_y0 (res_x0 / 2) 32 0 5)
    scene in
  set_motor_rotate (math.radians rotation0) (set_motor_tilt (math.radians tilt0) w).

(** ** The actuator methods *)

Definition _increase_tilt (w : World) : World :=
  let w := set_self (set_tilt (tilt (self w) + step (self w)) (self w)) w in
  if 90 <? tilt (self w) then
    set_self (set_impossible_move true (self w)) w
  else
    set_motor_tilt (math.radians (tilt (self w))) w.

Definition _decrease_tilt (w : World) : World :=
  let w := set_self (set_tilt (tilt (self w) - step (self w)) (self w)) w in
  if tilt (self w) <? 0 then
    set_self (set_impossible_move true (self w)) w
  else
    set_motor_tilt (math.radians (tilt (self w))) w.

Definition _increase_rotation (w : World) : World :=
  let w := set_self (set_rotation (rotation (self w) + step (self w)) (self w)) w in
  set_motor_rotate (math.radians (rotation (self w))) w.

Definition _decrease_rotation (w : World) : World :=
  let w := set_self (set_rotation (rotation (self w) - step (self w)) (self w)) w in
  set_motor_rotate (math.radians (rotation (self w))) w.

(** ** The move command (the last lines of [_find_bright_spot]) *)

Definition move_command (center t : Z) (max_loc : Z * Z) : direction * direction :=
  let dir_x := if fst max_loc >=? center then RIGHT else LEFT in
  let dir_y := if snd max_loc >=? center then DOWN else UP in
  let dir_x :=
    if (center - t <? fst max_loc) && (fst max_loc <? center + t)
    then CENTER else dir_x in
  let dir_y :=
    if (center - t <? snd max_loc) && (snd max_loc <? center + t)
    then CENTER else dir_y in
  (dir_x, dir_y).

(** ** The sensor, the locator and one iteration *)

Section Tracker.

(** The single-channel reduction of [cv2.COLOR_RGBA2GRAY]; its arithmetic
    belongs to OpenCV and nothing below depends on it. *)
Variable COLOR_RGBA2GRAY : rgba -> Z.

(** [_update_sensor]: [frame] is the raster that the host rendered, already
    converted to 8-bit RGBA and flipped; the method stores it in [self.data]
    and then saves it as a picture, which fails when it has no pixels. *)
Definition _update_sensor (frame : Mat rgba) (s : SolarSystem) : outcome SolarSystem :=
  let s := set_data (Some frame) s in
  let img := PIL.fromarray frame in
  _saved <- PIL.save img ;;
  Returned s.

Definition _find_bright_spot (frame : Mat rgba) (s : SolarSystem)
    : outcome (direction * direction * SolarSystem) :=
  s <- _update_sensor frame s ;;
  _image <- cv2.cvtColor cv2.COLOR_RGBA2BGR frame ;;
  g <- cv2.cvtColor COLOR_RGBA2GRAY frame ;;
  let s := set_gray (Some g) s in
  let '(_, _, _, max_loc) := cv2.minMaxLoc g in
  Returned (move_command (center s) (t s) max_loc, s).

Definition iterate (frame : Mat rgba) (w : World) : outcome World :=
  r <- _find_bright_spot frame (self w) ;;
  let '(direction, s) := r in
  let w := set_self (set_dir_x (Some (fst direction)) s) w in
  let w := set_self (set_dir_y (Some (snd direction)) (self w)) w in
  if is_dir (dir_x (self w)) CENTER && is_dir (dir_y (self w)) CENTER then
    Returned w
  else
    let w := if is_dir (dir_x (self w)) RIGHT then _decrease_rotation w else w in
    let w := if is_dir (dir_x (self w)) LEFT then _increase_rotation w else w in
    let w := if is_dir (dir_y (self w)) DOWN then _decrease_tilt w else w in
    let w :=
      if is_dir (dir_y (self w)) UP then
        let w := _increase_tilt w in
        let w := set_self
          (set_frame_no (frame_no (self w) + frame_step (self w)) (self w)) w in
        let w := mkWorld (self w)
          (mkObjects (keyframe_insert (frame_no (self w)) (motor_tilt (objects w)))
                     (motor_rotate (objects w))) in
        mkWorld (self w)
          (mkObjects (motor_tilt (objects w))
                     (keyframe_insert (frame_no (self w)) (motor_rotate (objects w))))
      else w in
    Returned w.

(** ** Sequences of calls *)

Inductive op : Type :=
| Iterate (frame : Mat rgba)
| IncreaseTilt
| DecreaseTilt
| IncreaseRotation
| DecreaseRotation.

Definition step_op (o : op) (w : World) : outcome World :=
  match o with
  | Iterate frame => iterate frame w
  | IncreaseTilt => Returned (_increase_tilt w)
  | DecreaseTilt => Returned (_decrease_tilt w)
  | IncreaseRotation => Returned (_increase_rotation w)
  | DecreaseRotation => Returned (_decrease_rotation w)
  end.

Fixpoint run (ops : list op) (w : World) : outcome World :=
  match ops with
  | [] => Returned w
  | o :: ops' => w' <- step_op o w ;; run ops' w'
  end.

(** The worlds that a freshly built tracker can get into. *)
Inductive reachable : World -> Prop :=
| reachable_init : forall scene, reachable (__init__ scene)
| reachable_step : forall o w w',
    reachable w -> step_op o w = Returned w' -> reachable w'.

(** The same frame presented [n] times (the bright spot does not move). *)
Fixpoint iterate_n (n : nat) (frame : Mat rgba) (w : World) : outcome World :=
  match n with
  | O => Returned w
  | S n' => w' <- iterate frame w ;; iterate_n n' frame w'
  end.

End Tracker.

(** ** Concrete inputs used by the examples *)

(** A luminance for the examples (integer BT.601 weights). *)
Definition luma (p : rgba) : Z :=
  let '(r, g, b, _) := p in (299 * r + 587 * g + 114 * b) / 1000.

Definition white : rgba := (255, 255, 255, 255).
Definition black : rgba := (0, 0, 0, 255).

(** A black frame with one white pixel at column [x] of row [y]. *)
Definition spot_row (width x : Z) : list rgba :=
  map (fun i => if Z.of_nat i =? x then white else black) (seq 0 (Z.to_nat width)).

Definition spot_frame (width height x y : Z) : Mat rgba :=
  map (fun j => if Z.of_nat j =? y then spot_row width x else repeat black (Z.to_nat width))
      (seq 0 (Z.to_nat height)).

(** A scene whose motors were left at some angle, without keyframes. *)
Definition scene0 : Objects :=
  mkObjects (mkMotor (math.radians 7) []) (mkMotor (math.radians 9) []).

(** The tracker just built on [scene0], and the same tracker after 90
    steps up (tilt 90 on both sides). *)
Definition fresh : World := __init__ scene0.
Definition at_upper_bound : World := Nat.iter 90 _increase_tilt fresh.

(** ** The rule of the specification for the move command *)

(** The text of the rule, axis by axis and with a centre per axis: the
    coarse side first, then the dead zone overrides it. *)
Definition spec_axis (at_or_above below : direction) (c t v : Z) : direction :=
  let coarse := if c <=? v then at_or_above else below in
  if (c - t <? v) && (v <? c + t) then CENTER else coarse.

Definition spec_classify (cx cy t : Z) (spot : Z * Z) : direction * direction :=
  (spec_axis RIGHT LEFT cx t (fst spot), spec_axis DOWN UP cy t (snd spot)).

(** The error that the specification names for a frame of zero area. *)
Definition EmptyFrameError : exn := named "EmptyFrameError".

(** What an observer of the actuators can see. *)
Definition actuator_state (w : World) : Z * Z * bool * Z * Objects :=
  (tilt (self w), rotation (self w), impossible_move (self w),
   frame_no (self w), objects w).

Definition host_tilt (w : World) : math.angle :=
  rotation_euler (motor_tilt (objects w)).

Definition host_rotation (w : World) : math.angle :=
  rotation_euler (motor_rotate (objects w)).

Definition tilt_keyframes (w : World) : list (Z * math.angle) :=
  keyframes (motor_tilt (objects w)).

Definition rotation_keyframes (w : World) : list (Z * math.angle) :=
  keyframes (motor_rotate (objects w)).

(** The tilt bound as it holds in the worlds where no move was refused:
    unit step, and while the flag is down the counter is within [0, 90]
    and the tilt motor holds exactly the counter. *)
Definition in_bounds (w : World) : Prop :=
  step (self w) = 1 /\
  (impossible_move (self w) = false ->
     0 <= tilt (self w) <= 90 /\ host_tilt w = math.radians (tilt (self w))).

(** An accumulator of the scan that holds a pixel position. *)
Definition located (acc : option (Z * (Z * Z))) : Prop :=
  match acc with
  | Some (_, (x, y)) => 0 <= x /\ 0 <= y
  | None => False
  end.

(** The bright spot of a frame, as the locator computes it. *)
Definition bright_spot (to_gray : rgba -> Z) (frame : Mat rgba) : Z * Z :=
  let '(_, _, _, max_loc) := cv2.minMaxLoc (map (map to_gray) frame) in max_loc.

(** *** The parts of one iteration

    [iterate] above follows the method line by line.  The three
    definitions below name its parts; [iterate_nonempty] proves that the
    method is their composition. *)

(** The attributes written before the moves: the frame, its grey version
    and the two directions. *)
Definition sensed (to_gray : rgba -> Z) (frame : Mat rgba)
    (d : direction * direction) (w : World) : World :=
  set_self
    (set_dir_y (Some (snd d))
       (set_dir_x (Some (fst d))
          (set_gray (Some (map (map to_gray) frame))
             (set_data (Some frame) (self w))))) w.

Definition horizontal_move (d : direction) (w : World) : World :=
  match d with
  | RIGHT => _decrease_rotation w
  | LEFT => _increase_rotation w
  | _ => w
  end.

(** The tail of the UP branch: the frame number advances, then one
    keyframe per motor is inserted at the advanced number. *)
Definition generate_keyframes (w : World) : World :=
  let f := frame_no (self w) + frame_step (self w) in
  mkWorld (set_frame_no f (self w))
    (mkObjects (keyframe_insert f (motor_tilt (objects w)))
               (keyframe_insert f (motor_rotate (objects w)))).

Definition vertical_move (d : direction) (w : World) : World :=
  match d with
  | DOWN => _decrease_tilt w
  | UP => generate_keyframes (_increase_tilt w)
  | _ => w
  end.

Definition converged (d : direction * direction) : bool :=
  direction_eqb (fst d) CENTER && direction_eqb (snd d) CENTER.

(** ** The driver and the vocabulary of the further properties *)

(** The world an iteration returns for the command [d], on a frame that has
    pixels (see [iterate_nonempty]). *)
Definition after_command (to_gray : rgba -> Z) (frame : Mat rgba)
    (d : direction * direction) (w : World) : World :=
  if converged d then sensed to_gray frame d w
  else vertical_move (snd d) (horizontal_move (fst d) (sensed to_gray frame d w)).

(** The loop of [__main__]: for each [i] of the range, [print(i)] and then
    [ss.iterate()].  [frames i] is the frame that the host renders in
    iteration [i]; the result holds what was printed and either the last
    world or the exception that ended the program. *)
Fixpoint main_loop (to_gray : rgba -> Z) (frames : nat -> Mat rgba)
    (range : list nat) (stdout : list nat) (ss : World)
    : list nat * outcome World :=
  match range with
  | [] => (stdout, Returned ss)
  | i :: range' =>
      let stdout := stdout ++ [i] in
      match iterate to_gray (frames i) ss with
      | Returned ss' => main_loop to_gray frames range' stdout ss'
      | Raised e => (stdout, Raised e)
      end
  end.

Definition main (to_gray : rgba -> Z) (scene : Objects) (frames : nat -> Mat rgba)
    : list nat * outcome World :=
  let ss := __init__ scene in
  main_loop to_gray frames (seq 0 50) [] ss.

(** The frames at which a tracker that advanced [n] times has inserted its
    keyframes: 5, 10, ..., 5 n. *)
Definition stride_frames (n : nat) : list Z :=
  map (fun k => 5 * Z.of_nat k) (seq 1 n).

(** The pixels of a grey raster with their positions (x, y), row by row
    from the top, each row from the left. *)
Fixpoint row_entries (y x : Z) (row : list Z) : list (Z * (Z * Z)) :=
  match row with
  | [] => []
  | v :: row' => (v, (x, y)) :: row_entries y (x + 1) row'
  end.

Fixpoint entries (y : Z) (m : Mat Z) : list (Z * (Z * Z)) :=
  match m with
  | [] => []
  | row :: rows => row_entries y 0 row ++ entries (y + 1) rows
  end.

(** The update of the maximum scan for one pixel. *)
Definition keep_max (acc : option (Z * (Z * Z))) (e : Z * (Z * Z))
    : option (Z * (Z * Z)) :=
  match acc with
  | None => Some e
  | Some (m, _) => if m <? fst e then Some e else acc
  end.

(** The bounds that [k] iterations of a fresh tracker cannot leave. *)
Definition within (k : Z) (w : World) : Prop :=
  step (self w) = 1 /\ frame_step (self w) = 5 /\
  - k <= tilt (self w) <= k /\
  - k <= rotation (self w) <= k /\
  0 <= frame_no (self w) <= 5 * k /\
  - k <= math.degrees (host_tilt w) <= k /\
  host_rotation w = math.radians (rotation (self w)).

(** How often the direction [d] occurs among [ds]. *)
Definition tally (d : direction) (ds : list direction) : Z :=
  Z.of_nat (List.length (filter (direction_eqb d) ds)).

(** The commands that a tracker built by [__init__] reads off [frames]. *)
Definition commands (to_gray : rgba -> Z) (frames : list (Mat rgba))
    : list (direction * direction) :=
  map (fun frame => move_command 256 32 (bright_spot to_gray frame)) frames.

(** Evaluation of the straight-line part of an iteration on a world given
    by its fields; what remains are the bound tests of the tilt moves. *)
Ltac run_iteration :=
  cbv beta iota zeta delta
    [bind fst snd sensed converged vertical_move horizontal_move
     generate_keyframes keyframe_insert is_dir direction_eqb andb
     _increase_tilt _decrease_tilt _increase_rotation _decrease_rotation
     set_self set_tilt set_rotation set_impossible_move set_dir_x set_dir_y
     set_data set_gray set_frame_no set_motor_tilt set_motor_rotate
     self objects motor_tilt motor_rotate rotation_euler keyframes
     tilt rotation step impossible_move dir_x dir_y data gray res_x res_y
     center t frame_no frame_step
     actuator_state host_tilt host_rotation tilt_keyframes rotation_keyframes];
  repeat match goal with
         | |- context [if ?x <? ?y then _ else _] =>
             destruct (Z.ltb_spec x y); cbv beta iota
         end.

(** * Properties *)

(** ** The move command *)

Lemma move_command_spec : forall c t x y,
  move_command c t (x, y) = spec_classify c c t (x, y).
Proof.
  intros c t x y. unfold move_command, spec_classify, spec_axis. cbn [fst snd].
  replace (x >=? c) with (c <=? x) by (rewrite Z.geb_leb; reflexivity).
  replace (y >=? c) with (c <=? y) by (rewrite Z.geb_leb; reflexivity).
  reflexivity.
Qed.

Lemma spec_axis_center : forall hi lo c t v,
  hi <> CENTER -> lo <> CENTER ->
  (spec_axis hi lo c t v = CENTER <-> c - t < v < c + t).
Proof.
  intros hi lo c t v Hhi Hlo. unfold spec_axis.
  destruct (Z.ltb_spec (c - t) v), (Z.ltb_spec v (c + t)); cbn [andb];
    (split; [ intros E; try lia; destruct (c <=? v); congruence | intros; try lia; reflexivity ]).
Qed.

Lemma spec_axis_outside : forall hi lo c t v,
  ~ (c - t < v < c + t) ->
  spec_axis hi lo c t v = if c <=? v then hi else lo.
Proof.
  intros hi lo c t v H. unfold spec_axis.
  destruct (Z.ltb_spec (c - t) v), (Z.ltb_spec v (c + t)); cbn [andb];
    try reflexivity; lia.
Qed.

Lemma find_bright_spot_nonempty : forall to_gray frame s,
  cv2.empty frame = false ->
  _find_bright_spot to_gray frame s =
    Returned (move_command (center s) (t s) (bright_spot to_gray frame),
              set_gray (Some (map (map to_gray) frame)) (set_data (Some frame) s)).
Proof.
  intros to_gray frame s Hne.
  unfold _find_bright_spot, bright_spot, cv2.cvtColor, bind, _update_sensor,
    PIL.save, PIL.fromarray.
  rewrite Hne.
  destruct (cv2.minMaxLoc (map (map to_gray) frame)) as [[[mn mx] mnl] mxl].
  reflexivity.
Qed.

Lemma find_bright_spot_empty : forall to_gray frame s,
  cv2.empty frame = true ->
  _find_bright_spot to_gray frame s = Raised PIL.error.
Proof.
  intros to_gray frame s He.
  unfold _find_bright_spot, _update_sensor, PIL.save, PIL.fromarray, bind.
  rewrite He. reflexivity.
Qed.

(** C1. The move command is the rule of the specification, with the one
    centre of the code on both axes: RIGHT when x >= center and LEFT
    otherwise, DOWN when y >= center and UP otherwise, each overridden by
    CENTER exactly when the coordinate is strictly inside the dead zone.
    Both coordinates inside the dead zone give (CENTER, CENTER); for a
    tolerance that is not negative a coordinate at center + t stays RIGHT
    (DOWN), and for a positive one a coordinate at center - t stays LEFT
    (UP).  On every frame that has pixels the locator returns this command
    for the bright spot of the frame. *)
Theorem C1_move_command_rule : forall to_gray frame s x y,
  let c := center s in
  let tol := t s in
  move_command c tol (x, y) = spec_classify c c tol (x, y) /\
  (fst (move_command c tol (x, y)) = CENTER <-> c - tol < x < c + tol) /\
  (snd (move_command c tol (x, y)) = CENTER <-> c - tol < y < c + tol) /\
  (~ (c - tol < x < c + tol) ->
     fst (move_command c tol (x, y)) = if x >=? c then RIGHT else LEFT) /\
  (~ (c - tol < y < c + tol) ->
     snd (move_command c tol (x, y)) = if y >=? c then DOWN else UP) /\
  (c - tol < x < c + tol -> c - tol < y < c + tol ->
     move_command c tol (x, y) = (CENTER, CENTER)) /\
  (0 <= tol -> fst (move_command c tol (c + tol, y)) = RIGHT) /\
  (0 < tol -> fst (move_command c tol (c - tol, y)) = LEFT) /\
  (0 <= tol -> snd (move_command c tol (x, c + tol)) = DOWN) /\
  (0 < tol -> snd (move_command c tol (x, c - tol)) = UP) /\
  (cv2.empty frame = false ->
     exists s', _find_bright_spot to_gray frame s =
                  Returned (spec_classify c c tol (bright_spot to_gray frame), s')).
Proof.
  intros to_gray frame s x y c tol.
  assert (Hx : forall v w, fst (move_command c tol (v, w)) = spec_axis RIGHT LEFT c tol v).
  { intros v w. rewrite move_command_spec. reflexivity. }
  assert (Hy : forall v w, snd (move_command c tol (v, w)) = spec_axis DOWN UP c tol w).
  { intros v w. rewrite move_command_spec. reflexivity. }
  split; [apply move_command_spec|].
  split; [rewrite Hx; apply spec_axis_center; discriminate|].
  split; [rewrite Hy; apply spec_axis_center; discriminate|].
  split; [intros H; rewrite Hx, spec_axis_outside by exact H; rewrite Z.geb_leb; reflexivity|].
  split; [intros H; rewrite Hy, spec_axis_outside by exact H; rewrite Z.geb_leb; reflexivity|].
  split.
  { intros H1 H2. apply injective_projections; cbn [fst snd];
      [rewrite Hx | rewrite Hy]; apply spec_axis_center; (discriminate || assumption). }
  split.
  { intros H. rewrite Hx, spec_axis_outside by lia.
    destruct (Z.leb_spec c (c + tol)); [reflexivity | lia]. }
  split.
  { intros H. rewrite Hx, spec_axis_outside by lia.
    destruct (Z.leb_spec c (c - tol)); [lia | reflexivity]. }
  split.
  { intros H. rewrite Hy, spec_axis_outside by lia.
    destruct (Z.leb_spec c (c + tol)); [reflexivity | lia]. }
  split.
  { intros H. rewrite Hy, spec_axis_outside by lia.
    destruct (Z.leb_spec c (c - tol)); [lia | reflexivity]. }
  intros Hne. eexists. rewrite (find_bright_spot_nonempty _ _ _ Hne).
  destruct (bright_spot to_gray frame) as [bx by_]. rewrite move_command_spec. reflexivity.
Qed.

(** The rule at the default centre 256 and tolerance 32: spots at
    (256, 256), (0, 0), (500, 100), and on the edges of the dead zone. *)
Lemma C1_move_command_rule_witness :
  move_command 256 32 (256, 256) = (CENTER, CENTER) /\
  move_command 256 32 (0, 0) = (LEFT, UP) /\
  move_command 256 32 (500, 100) = (RIGHT, UP) /\
  fst (move_command 256 32 (288, 0)) = RIGHT /\
  fst (move_command 256 32 (224, 0)) = LEFT /\
  snd (move_command 256 32 (0, 288)) = DOWN /\
  snd (move_command 256 32 (0, 224)) = UP /\
  exists s', _find_bright_spot luma [[black; white]] (self fresh)
               = Returned ((LEFT, UP), s').
Proof.
  set (s := self fresh).
  destruct (C1_move_command_rule luma [[black; white]] s 256 256)
    as (_ & _ & _ & _ & _ & Hcc & _ & _ & _ & _ & Hloc).
  destruct (C1_move_command_rule luma [] s 0 0)
    as (_ & _ & _ & Hx0 & Hy0 & _ & Hr & Hl & _ & _ & _).
  destruct (C1_move_command_rule luma [] s 500 100)
    as (_ & _ & _ & Hx5 & Hy5 & _ & _ & _ & Hd & Hu & _).
  split; [apply Hcc; vm_compute; split; reflexivity|].
  split.
  { apply injective_projections; [apply Hx0 | apply Hy0];
      vm_compute; intros [H1 H2]; first [discriminate H1 | discriminate H2]. }
  split.
  { apply injective_projections; [apply Hx5 | apply Hy5];
      vm_compute; intros [H1 H2]; first [discriminate H1 | discriminate H2]. }
  split; [apply Hr; vm_compute; discriminate|].
  split; [apply Hl; reflexivity|].
  split; [apply Hd; vm_compute; discriminate|].
  split; [apply Hu; reflexivity|].
  apply Hloc. reflexivity.
Defined.

(** ** The actuator methods *)

Lemma increase_tilt_over : forall w,
  90 < tilt (self w) + step (self w) ->
  _increase_tilt w =
    set_self (set_impossible_move true
                (set_tilt (tilt (self w) + step (self w)) (self w))) w.
Proof.
  intros w H. unfold _increase_tilt. cbn [self set_self set_tilt tilt].
  destruct (Z.ltb_spec 90 (tilt (self w) + step (self w))); [reflexivity | lia].
Qed.

Lemma increase_tilt_within : forall w,
  tilt (self w) + step (self w) <= 90 ->
  _increase_tilt w =
    set_motor_tilt (math.radians (tilt (self w) + step (self w)))
      (set_self (set_tilt (tilt (self w) + step (self w)) (self w)) w).
Proof.
  intros w H. unfold _increase_tilt. cbn [self set_self set_tilt tilt].
  destruct (Z.ltb_spec 90 (tilt (self w) + step (self w))); [lia | reflexivity].
Qed.

Lemma decrease_tilt_under : forall w,
  tilt (self w) - step (self w) < 0 ->
  _decrease_tilt w =
    set_self (set_impossible_move true
                (set_tilt (tilt (self w) - step (self w)) (self w))) w.
Proof.
  intros w H. unfold _decrease_tilt. cbn [self set_self set_tilt tilt].
  destruct (Z.ltb_spec (tilt (self w) - step (self w)) 0); [reflexivity | lia].
Qed.

Lemma decrease_tilt_within : forall w,
  0 <= tilt (self w) - step (self w) ->
  _decrease_tilt w =
    set_motor_tilt (math.radians (tilt (self w) - step (self w)))
      (set_self (set_tilt (tilt (self w) - step (self w)) (self w)) w).
Proof.
  intros w H. unfold _decrease_tilt. cbn [self set_self set_tilt tilt].
  destruct (Z.ltb_spec (tilt (self w) - step (self w)) 0); [lia | reflexivity].
Qed.

(** C3. A tilt move past a bound: [_increase_tilt] with tilt + step > 90
    raises the flag, leaves the host untouched (so the tilt motor keeps the
    last valid angle) and keeps the incremented counter; [_decrease_tilt]
    with tilt - step < 0 does the same at the lower bound. *)
Theorem C3_tilt_move_past_bound : forall w,
  (90 < tilt (self w) + step (self w) ->
     impossible_move (self (_increase_tilt w)) = true /\
     objects (_increase_tilt w) = objects w /\
     host_tilt (_increase_tilt w) = host_tilt w /\
     tilt (self (_increase_tilt w)) = tilt (self w) + step (self w)) /\
  (tilt (self w) - step (self w) < 0 ->
     impossible_move (self (_decrease_tilt w)) = true /\
     objects (_decrease_tilt w) = objects w /\
     host_tilt (_decrease_tilt w) = host_tilt w /\
     tilt (self (_decrease_tilt w)) = tilt (self w) - step (self w)).
Proof.
  intros w. split; intros H.
  - rewrite (increase_tilt_over w H). repeat split.
  - rewrite (decrease_tilt_under w H). repeat split.
Qed.

(** The scenario of the specification: tilt 90 on both sides, one step up;
    and tilt 0 on both sides, one step down. *)
Lemma C3_tilt_move_past_bound_witness :
  (tilt (self at_upper_bound) = 90 /\ host_tilt at_upper_bound = math.radians 90 /\
   impossible_move (self at_upper_bound) = false /\
   impossible_move (self (_increase_tilt at_upper_bound)) = true /\
   host_tilt (_increase_tilt at_upper_bound) = math.radians 90 /\
   tilt (self (_increase_tilt at_upper_bound)) = 91) /\
  (impossible_move (self (_decrease_tilt fresh)) = true /\
   host_tilt (_decrease_tilt fresh) = math.radians 0 /\
   tilt (self (_decrease_tilt fresh)) = -1).
Proof.
  set (up := at_upper_bound). set (down := fresh).
  destruct (C3_tilt_move_past_bound up) as [Hup _].
  destruct (C3_tilt_move_past_bound down) as [_ Hdown].
  split.
  - destruct Hup as (Hf & _ & Hh & Ht); [vm_compute; reflexivity|].
    split; [reflexivity|]. split; [reflexivity|]. split; [reflexivity|].
    split; [exact Hf|]. split; [rewrite Hh | rewrite Ht]; reflexivity.
  - destruct Hdown as (Hf & _ & Hh & Ht); [vm_compute; reflexivity|].
    split; [exact Hf|]. split; [rewrite Hh | rewrite Ht]; reflexivity.
Defined.

(** C7. Rotation moves are applied without any test: the counter changes
    by exactly the step, whatever its value, and the rotate motor receives
    the new counter converted to radians while the tilt motor and the tilt
    counter are left alone.  A tilt move that respects its bound gives the
    tilt motor the new tilt converted to radians and leaves the rotate
    motor alone. *)
Theorem C7_moves_reach_the_host : forall w,
  (rotation (self (_increase_rotation w)) = rotation (self w) + step (self w) /\
   host_rotation (_increase_rotation w) =
     math.radians (rotation (self w) + step (self w)) /\
   motor_tilt (objects (_increase_rotation w)) = motor_tilt (objects w) /\
   tilt (self (_increase_rotation w)) = tilt (self w) /\
   impossible_move (self (_increase_rotation w)) = impossible_move (self w)) /\
  (rotation (self (_decrease_rotation w)) = rotation (self w) - step (self w) /\
   host_rotation (_decrease_rotation w) =
     math.radians (rotation (self w) - step (self w)) /\
   motor_tilt (objects (_decrease_rotation w)) = motor_tilt (objects w) /\
   tilt (self (_decrease_rotation w)) = tilt (self w) /\
   impossible_move (self (_decrease_rotation w)) = impossible_move (self w)) /\
  (tilt (self w) + step (self w) <= 90 ->
     tilt (self (_increase_tilt w)) = tilt (self w) + step (self w) /\
     host_tilt (_increase_tilt w) = math.radians (tilt (self w) + step (self w)) /\
     motor_rotate (objects (_increase_tilt w)) = motor_rotate (objects w)) /\
  (0 <= tilt (self w) - step (self w) ->
     tilt (self (_decrease_tilt w)) = tilt (self w) - step (self w) /\
     host_tilt (_decrease_tilt w) = math.radians (tilt (self w) - step (self w)) /\
     motor_rotate (objects (_decrease_tilt w)) = motor_rotate (objects w)).
Proof.
  intros w. split; [repeat split|]. split; [repeat split|].
  split; intros H.
  - rewrite (increase_tilt_within w H). repeat split.
  - rewrite (decrease_tilt_within w H). repeat split.
Qed.

(** From the fresh tracker: one step up reaches the tilt motor as
    [radians 1], and one step back down as [radians 0]. *)
Lemma C7_moves_reach_the_host_witness :
  host_rotation (_decrease_rotation fresh) = math.radians (-1) /\
  host_rotation (_increase_rotation fresh) = math.radians 1 /\
  host_tilt (_increase_tilt fresh) = math.radians 1 /\
  host_tilt (_decrease_tilt (_increase_tilt fresh)) = math.radians 0.
Proof.
  set (w0 := fresh). set (w1 := _increase_tilt w0).
  destruct (C7_moves_reach_the_host w0) as ((_ & Hi & _) & (_ & Hd & _) & Hup & _).
  destruct (C7_moves_reach_the_host w1) as (_ & _ & _ & Hdown).
  split; [rewrite Hd; reflexivity|].
  split; [rewrite Hi; reflexivity|].
  split.
  - destruct Hup as (_ & Hh & _); [vm_compute; discriminate|].
    etransitivity; [exact Hh | reflexivity].
  - destruct Hdown as (_ & Hh & _); [vm_compute; discriminate|]. rewrite Hh. reflexivity.
Defined.

Lemma increase_tilt_counter : forall w,
  tilt (self (_increase_tilt w)) = tilt (self w) + step (self w) /\
  step (self (_increase_tilt w)) = step (self w).
Proof.
  intros w. unfold _increase_tilt. cbn [self set_self set_tilt tilt].
  destruct (90 <? tilt (self w) + step (self w)); split; reflexivity.
Qed.

Lemma iter_increase_tilt : forall n w,
  tilt (self (Nat.iter n _increase_tilt w)) = tilt (self w) + Z.of_nat n * step (self w) /\
  step (self (Nat.iter n _increase_tilt w)) = step (self w).
Proof.
  induction n as [|n IH]; intros w.
  - change (Nat.iter 0 _increase_tilt w) with w. cbn [Z.of_nat].
    split; [ring | reflexivity].
  - rewrite Nat.iter_succ. destruct (IH w) as [Ht Hs].
    destruct (increase_tilt_counter (Nat.iter n _increase_tilt w)) as [Ht' Hs'].
    rewrite Ht', Hs', Ht, Hs, Nat2Z.inj_succ. unfold Z.succ.
    split; [ring | reflexivity].
Qed.

Lemma iter_increase_tilt_host : forall scene n,
  host_tilt (Nat.iter n _increase_tilt (__init__ scene)) =
    math.radians (Z.min (Z.of_nat n) 90).
Proof.
  intros scene. induction n as [|n IH].
  - reflexivity.
  - rewrite Nat.iter_succ.
    destruct (iter_increase_tilt n (__init__ scene)) as [Ht Hs].
    change (tilt (self (__init__ scene))) with 0 in Ht.
    change (step (self (__init__ scene))) with 1 in Ht, Hs.
    set (w := Nat.iter n _increase_tilt (__init__ scene)) in *.
    destruct (Z_lt_le_dec 90 (tilt (self w) + step (self w))) as [Hover | Hin].
    + rewrite (increase_tilt_over w Hover).
      change (host_tilt w = math.radians (Z.min (Z.of_nat (S n)) 90)).
      rewrite IH. f_equal. lia.
    + rewrite (increase_tilt_within w Hin).
      change (math.radians (tilt (self w) + step (self w)) =
              math.radians (Z.min (Z.of_nat (S n)) 90)).
      f_equal. lia.
Qed.

(** C10. [_decrease_tilt] tests the lower bound only: whenever
    tilt - step >= 0 the tilt motor receives tilt - step, however large.
    After n >= 92 calls of [_increase_tilt] on a fresh tracker the counter
    is n while the motor is stuck at 90 degrees, and one call of
    [_decrease_tilt] then hands the motor n - 1 > 90 degrees. *)
Theorem C10_decrease_tilt_ignores_upper_bound :
  (forall w, 0 <= tilt (self w) - step (self w) ->
     host_tilt (_decrease_tilt w) = math.radians (tilt (self w) - step (self w)) /\
     impossible_move (self (_decrease_tilt w)) = impossible_move (self w)) /\
  (forall scene n, (92 <= n)%nat ->
     let w := Nat.iter n _increase_tilt (__init__ scene) in
     tilt (self w) = Z.of_nat n /\
     host_tilt w = math.radians 90 /\
     host_tilt (_decrease_tilt w) = math.radians (Z.of_nat n - 1) /\
     90 < math.degrees (host_tilt (_decrease_tilt w))).
Proof.
  split.
  - intros w H. rewrite (decrease_tilt_within w H). split; reflexivity.
  - intros scene n Hn w.
    destruct (iter_increase_tilt n (__init__ scene)) as [Ht Hs].
    change (tilt (self (__init__ scene))) with 0 in Ht.
    change (step (self (__init__ scene))) with 1 in Ht, Hs.
    fold w in Ht, Hs.
    assert (Hw : 0 <= tilt (self w) - step (self w)) by lia.
    split; [lia|]. split.
    + unfold w. rewrite iter_increase_tilt_host. f_equal. lia.
    + rewrite (decrease_tilt_within w Hw).
      change (math.radians (tilt (self w) - step (self w)) =
                math.radians (Z.of_nat n - 1) /\
              90 < tilt (self w) - step (self w)).
      split; [f_equal|]; lia.
Qed.

(** 92 steps up on a fresh tracker, then one step down: 91 degrees on the
    tilt motor. *)
Lemma C10_decrease_tilt_ignores_upper_bound_witness :
  tilt (self (Nat.iter 92 _increase_tilt fresh)) = 92 /\
  host_tilt (Nat.iter 92 _increase_tilt fresh) = math.radians 90 /\
  host_tilt (_decrease_tilt (Nat.iter 92 _increase_tilt fresh)) = math.radians 91.
Proof.
  set (w := Nat.iter 92 _increase_tilt fresh).
  destruct C10_decrease_tilt_ignores_upper_bound as [Hany Hmany].
  destruct (Hmany scene0 92%nat) as (Ht & Hh & _); [repeat constructor|].
  destruct (Hany w) as [Hd _]; [vm_compute; discriminate|].
  split; [exact Ht|]. split; [exact Hh|].
  etransitivity; [exact Hd | reflexivity].
Defined.

(** ** One iteration *)

Lemma iterate_nonempty : forall to_gray frame w d,
  cv2.empty frame = false ->
  move_command (center (self w)) (t (self w)) (bright_spot to_gray frame) = d ->
  iterate to_gray frame w =
    Returned (if converged d then sensed to_gray frame d w
              else vertical_move (snd d)
                     (horizontal_move (fst d) (sensed to_gray frame d w))).
Proof.
  intros to_gray frame w [dx dy] Hne Hd. unfold iterate.
  rewrite (find_bright_spot_nonempty _ _ _ Hne), Hd.
  destruct w as [[] [[] []]].
  destruct dx, dy; run_iteration; reflexivity.
Qed.

Lemma iterate_empty : forall to_gray frame w,
  cv2.empty frame = true ->
  iterate to_gray frame w = Raised PIL.error.
Proof.
  intros to_gray frame w He. unfold iterate.
  rewrite (find_bright_spot_empty _ _ _ He). reflexivity.
Qed.

Lemma iterate_returned : forall to_gray frame w w',
  iterate to_gray frame w = Returned w' ->
  cv2.empty frame = false.
Proof.
  intros to_gray frame w w' H. destruct (cv2.empty frame) eqn:He; [|reflexivity].
  rewrite (iterate_empty _ _ _ He) in H. discriminate H.
Qed.

Lemma find_bright_spot_returned : forall to_gray frame s d s',
  _find_bright_spot to_gray frame s = Returned (d, s') ->
  cv2.empty frame = false /\
  d = move_command (center s) (t s) (bright_spot to_gray frame).
Proof.
  intros to_gray frame s d s' H. destruct (cv2.empty frame) eqn:He.
  - rewrite (find_bright_spot_empty _ _ _ He) in H. discriminate H.
  - rewrite (find_bright_spot_nonempty _ _ _ He) in H.
    injection H as Hd _. split; [reflexivity | symmetry; exact Hd].
Qed.

(** What every returning iteration leaves alone or changes in one way. *)
Lemma iterate_effect : forall to_gray frame w w',
  iterate to_gray frame w = Returned w' ->
  step (self w') = step (self w) /\
  center (self w') = center (self w) /\
  t (self w') = t (self w) /\
  frame_step (self w') = frame_step (self w) /\
  (frame_no (self w') = frame_no (self w) \/
   frame_no (self w') = frame_no (self w) + frame_step (self w)) /\
  (impossible_move (self w) = true -> impossible_move (self w') = true).
Proof.
  intros to_gray frame w w' H.
  pose proof (iterate_returned _ _ _ _ H) as Hne.
  destruct (move_command (center (self w)) (t (self w)) (bright_spot to_gray frame))
    as [dx dy] eqn:Hd.
  rewrite (iterate_nonempty _ _ _ _ Hne Hd) in H. clear Hd Hne.
  apply (f_equal (fun r => match r with Returned a => a | Raised _ => w end)) in H.
  subst w'. destruct w as [[] [[] []]].
  destruct dx, dy; run_iteration; repeat split; auto.
Qed.

Lemma step_op_effect : forall to_gray o w w',
  step_op to_gray o w = Returned w' ->
  step (self w') = step (self w) /\
  frame_step (self w') = frame_step (self w) /\
  (frame_no (self w') = frame_no (self w) \/
   frame_no (self w') = frame_no (self w) + frame_step (self w)) /\
  (impossible_move (self w) = true -> impossible_move (self w') = true).
Proof.
  intros to_gray o w w' H. destruct o as [frame | | | |]; cbn [step_op] in H.
  - destruct (iterate_effect _ _ _ _ H) as (Hs & _ & _ & Hf & Hn & Hi).
    repeat split; assumption.
  - injection H as H. subst w'. destruct w as [[] [[] []]].
    run_iteration; repeat split; auto.
  - injection H as H. subst w'. destruct w as [[] [[] []]].
    run_iteration; repeat split; auto.
  - injection H as H. subst w'. repeat split; auto.
  - injection H as H. subst w'. repeat split; auto.
Qed.

(** ** Convergence *)

Lemma sensed_keeps_rule : forall to_gray frame d w,
  center (self (sensed to_gray frame d w)) = center (self w) /\
  t (self (sensed to_gray frame d w)) = t (self w) /\
  actuator_state (sensed to_gray frame d w) = actuator_state w.
Proof. intros. repeat split. Qed.

Lemma iterate_converged : forall to_gray frame w,
  cv2.empty frame = false ->
  move_command (center (self w)) (t (self w)) (bright_spot to_gray frame)
    = (CENTER, CENTER) ->
  iterate to_gray frame w = Returned (sensed to_gray frame (CENTER, CENTER) w).
Proof.
  intros to_gray frame w Hne Hd. rewrite (iterate_nonempty _ _ _ _ Hne Hd). reflexivity.
Qed.

Lemma iterate_n_converged : forall to_gray frame n w,
  cv2.empty frame = false ->
  move_command (center (self w)) (t (self w)) (bright_spot to_gray frame)
    = (CENTER, CENTER) ->
  exists w', iterate_n to_gray n frame w = Returned w' /\
             actuator_state w' = actuator_state w.
Proof.
  intros to_gray frame n. induction n as [|n IH]; intros w Hne Hd.
  - exists w. split; reflexivity.
  - cbn [iterate_n]. rewrite (iterate_converged _ _ _ Hne Hd). cbn [bind].
    destruct (sensed_keeps_rule to_gray frame (CENTER, CENTER) w) as (Hc & Ht & Ha).
    destruct (IH (sensed to_gray frame (CENTER, CENTER) w) Hne) as (w' & Hrun & Hw').
    + rewrite Hc, Ht. exact Hd.
    + exists w'. split; [exact Hrun | rewrite Hw'; exact Ha].
Qed.

(** C5. When the locator classifies the frame as (CENTER, CENTER) the
    iteration returns and moves nothing: the two counters, the flag, the
    frame number and the whole host (both motor angles and both keyframe
    lists) are as before; only the sensor attributes and the two
    directions are written.  Presenting the same frame any number of times
    leaves the same actuator state. *)
Theorem C5_converged_iteration_moves_nothing : forall to_gray frame w s',
  _find_bright_spot to_gray frame (self w) = Returned ((CENTER, CENTER), s') ->
  (exists w', iterate to_gray frame w = Returned w' /\
     tilt (self w') = tilt (self w) /\
     rotation (self w') = rotation (self w) /\
     impossible_move (self w') = impossible_move (self w) /\
     frame_no (self w') = frame_no (self w) /\
     host_tilt w' = host_tilt w /\
     host_rotation w' = host_rotation w /\
     tilt_keyframes w' = tilt_keyframes w /\
     rotation_keyframes w' = rotation_keyframes w /\
     dir_x (self w') = Some CENTER /\ dir_y (self w') = Some CENTER) /\
  (forall n, exists w', iterate_n to_gray n frame w = Returned w' /\
     actuator_state w' = actuator_state w).
Proof.
  intros to_gray frame w s' H.
  destruct (find_bright_spot_returned _ _ _ _ _ H) as [Hne Hd]. symmetry in Hd.
  split.
  - exists (sensed to_gray frame (CENTER, CENTER) w).
    split; [apply iterate_converged; assumption | repeat split].
  - intros n. apply iterate_n_converged; assumption.
Qed.

(** Two frames of the default resolution. *)
Lemma spot_256_256 :
  cv2.empty (spot_frame 512 512 256 256) = false /\
  bright_spot luma (spot_frame 512 512 256 256) = (256, 256).
Proof. split; vm_compute; reflexivity. Qed.

Lemma spot_500_100 :
  cv2.empty (spot_frame 512 512 500 100) = false /\
  bright_spot luma (spot_frame 512 512 500 100) = (500, 100).
Proof. split; vm_compute; reflexivity. Qed.

(** The scenario of the specification: a 512 x 512 frame with the spot at
    (256, 256), seen by a fresh tracker, once and fifty times. *)
Lemma C5_converged_iteration_moves_nothing_witness :
  (exists w', iterate luma (spot_frame 512 512 256 256) fresh = Returned w' /\
     tilt (self w') = 0 /\ rotation (self w') = 0 /\
     host_tilt w' = math.radians 0 /\ host_rotation w' = math.radians 0 /\
     tilt_keyframes w' = [] /\ rotation_keyframes w' = [] /\
     frame_no (self w') = 0) /\
  (exists w', iterate_n luma 50 (spot_frame 512 512 256 256) fresh = Returned w' /\
     actuator_state w' = actuator_state fresh).
Proof.
  set (w0 := fresh). set (frame := spot_frame 512 512 256 256).
  destruct spot_256_256 as [Hne Hspot].
  destruct (C5_converged_iteration_moves_nothing luma frame w0
              (set_gray (Some (map (map luma) frame)) (set_data (Some frame) (self w0))))
    as [(w' & Hit & Ht & Hr & _ & Hf & Hht & Hhr & Htk & Hrk & _) Hmany].
  - unfold frame. rewrite (find_bright_spot_nonempty _ _ _ Hne), Hspot. reflexivity.
  - split.
    + exists w'. split; [exact Hit|].
      split; [exact Ht|]. split; [exact Hr|]. split; [exact Hht|].
      split; [exact Hhr|]. split; [exact Htk|]. split; [exact Hrk | exact Hf].
    + exact (Hmany 50%nat).
Defined.

(** ** Keyframes *)

Lemma app_one_neq : forall (A : Type) (l : list A) (a : A), l ++ [a] <> l.
Proof.
  intros A l a H. apply (f_equal (@List.length A)) in H.
  rewrite List.length_app in H. cbn [List.length] in H. lia.
Qed.

(** C4, as the code has it.  On a frame that has pixels the iteration
    returns.  When the vertical direction is UP the frame number first
    advances by the stride and then one keyframe per motor is appended, at
    the advanced frame number and with the angle that the motor holds
    after the moves of this iteration.  For any other vertical direction
    (DOWN, or CENTER with or without a horizontal move) the frame number
    and both keyframe lists are unchanged; so a keyframe is appended
    exactly when the direction is UP.  The stride of a fresh tracker is 5
    and no iteration changes it. *)
Theorem C4_keyframes_only_when_up : forall to_gray frame w,
  cv2.empty frame = false ->
  exists dx dy w',
    move_command (center (self w)) (t (self w)) (bright_spot to_gray frame) = (dx, dy) /\
    iterate to_gray frame w = Returned w' /\
    dir_y (self w') = Some dy /\
    (dy = UP ->
       frame_no (self w') = frame_no (self w) + frame_step (self w) /\
       tilt_keyframes w' =
         tilt_keyframes w ++ [(frame_no (self w) + frame_step (self w), host_tilt w')] /\
       rotation_keyframes w' =
         rotation_keyframes w ++
           [(frame_no (self w) + frame_step (self w), host_rotation w')]) /\
    (dy <> UP ->
       frame_no (self w') = frame_no (self w) /\
       tilt_keyframes w' = tilt_keyframes w /\
       rotation_keyframes w' = rotation_keyframes w) /\
    (tilt_keyframes w' <> tilt_keyframes w <-> dy = UP) /\
    (rotation_keyframes w' <> rotation_keyframes w <-> dy = UP) /\
    frame_step (self w') = frame_step (self w) /\
    (forall scene, frame_step (self (__init__ scene)) = 5).
Proof.
  intros to_gray frame w Hne.
  destruct (move_command (center (self w)) (t (self w)) (bright_spot to_gray frame))
    as [dx dy] eqn:Hd.
  exists dx, dy. eexists.
  split; [reflexivity|]. split; [exact (iterate_nonempty _ _ _ _ Hne Hd)|].
  clear Hd Hne.
  assert (Hcases :
    let w' := if converged (dx, dy) then sensed to_gray frame (dx, dy) w
              else vertical_move dy (horizontal_move dx (sensed to_gray frame (dx, dy) w)) in
    dir_y (self w') = Some dy /\
    (dy = UP ->
       frame_no (self w') = frame_no (self w) + frame_step (self w) /\
       tilt_keyframes w' =
         tilt_keyframes w ++ [(frame_no (self w) + frame_step (self w), host_tilt w')] /\
       rotation_keyframes w' =
         rotation_keyframes w ++
           [(frame_no (self w) + frame_step (self w), host_rotation w')]) /\
    (dy <> UP ->
       frame_no (self w') = frame_no (self w) /\
       tilt_keyframes w' = tilt_keyframes w /\
       rotation_keyframes w' = rotation_keyframes w) /\
    frame_step (self w') = frame_step (self w)).
  { destruct w as [[] [[] []]].
    destruct dx, dy; run_iteration;
      (split; [reflexivity|]);
      (split; [intros E; first [discriminate E | repeat split]|]);
      (split; [intros E; first [exfalso; apply E; reflexivity | repeat split]|]);
      reflexivity. }
  cbv zeta in Hcases. cbn [fst snd].
  destruct Hcases as (Hy & Hup & Hother & Hstep).
  split; [exact Hy|]. split; [exact Hup|]. split; [exact Hother|].
  split; [|split; [|split; [exact Hstep | reflexivity]]].
  - split.
    + intros Hchanged. destruct dy; try reflexivity;
        exfalso; apply Hchanged; apply Hother; discriminate.
    + intros E. destruct (Hup E) as (_ & Hk & _). rewrite Hk. apply app_one_neq.
  - split.
    + intros Hchanged. destruct dy; try reflexivity;
        exfalso; apply Hchanged; apply Hother; discriminate.
    + intros E. destruct (Hup E) as (_ & _ & Hk). rewrite Hk. apply app_one_neq.
Qed.

(** The scenario of the specification on a fresh tracker: the spot at
    (500, 100) turns the panel right and up; both keyframes are at frame 5,
    the frame number after the advance. *)
Lemma C4_keyframes_only_when_up_witness :
  exists w', iterate luma (spot_frame 512 512 500 100) fresh = Returned w' /\
    dir_x (self w') = Some RIGHT /\ dir_y (self w') = Some UP /\
    rotation (self w') = -1 /\ tilt (self w') = 1 /\
    frame_no (self w') = 5 /\
    tilt_keyframes w' = [(5, math.radians 1)] /\
    rotation_keyframes w' = [(5, math.radians (-1))].
Proof.
  set (w0 := fresh).
  destruct spot_500_100 as [Hne Hspot].
  destruct (C4_keyframes_only_when_up luma (spot_frame 512 512 500 100) w0 Hne)
    as (dx & dy & w' & Hd & Hit & _).
  rewrite Hspot in Hd. injection Hd as <- <-.
  exists w'. split; [exact Hit|].
  rewrite (iterate_nonempty luma _ w0 (RIGHT, UP) Hne) in Hit
    by (rewrite Hspot; reflexivity).
  injection Hit as <-. repeat split.
Defined.

(** C4 as it is worded fails: the keyframe is not taken at the frame
    number that is current when the iteration starts.  A fresh tracker is
    at frame 0; after one iteration with the spot at (0, 0) the vertical
    direction is UP and the only keyframe of the tilt motor is at frame 5. *)
Lemma C4_keyframe_is_not_at_current_frame :
  exists w', iterate luma [[white; black]; [black; black]] fresh = Returned w' /\
    dir_y (self w') = Some UP /\
    frame_no (self fresh) = 0 /\
    tilt_keyframes w' = [(5, math.radians 1)] /\
    ~ (exists a, tilt_keyframes w' =
                   tilt_keyframes fresh ++ [(frame_no (self fresh), a)]).
Proof.
  eexists. split; [vm_compute; reflexivity|].
  split; [reflexivity|]. split; [reflexivity|]. split; [reflexivity|].
  intros [a Ha]. vm_compute in Ha. discriminate Ha.
Qed.

(** ** The scan of [minMaxLoc] *)

Lemma scan_row_located : forall better row y x acc,
  0 <= y -> 0 <= x ->
  located acc \/ (acc = None /\ row <> []) ->
  located (cv2.scan_row better y x row acc).
Proof.
  intros better row. induction row as [|v row IH]; intros y x acc Hy Hx Hacc.
  - cbn [cv2.scan_row]. destruct Hacc as [H | [_ H]]; [exact H | congruence].
  - cbn [cv2.scan_row]. apply IH; [exact Hy | lia |]. left.
    destruct acc as [[m [ax ay]]|].
    + destruct Hacc as [H | [H _]]; [|discriminate H].
      destruct (better v m); [split; assumption | exact H].
    + split; assumption.
Qed.

Lemma scan_row_keeps : forall better row y x acc,
  0 <= y -> 0 <= x -> located acc -> located (cv2.scan_row better y x row acc).
Proof. intros. apply scan_row_located; auto. Qed.

Lemma scan_rows_keeps : forall better rows y acc,
  0 <= y -> located acc -> located (cv2.scan_rows better y rows acc).
Proof.
  intros better rows. induction rows as [|row rows IH]; intros y acc Hy Hacc.
  - exact Hacc.
  - cbn [cv2.scan_rows]. apply IH; [lia|]. apply scan_row_keeps; [exact Hy | lia | exact Hacc].
Qed.

Lemma scan_rows_nonempty : forall better (m : Mat Z),
  cv2.empty m = false -> located (cv2.scan_rows better 0 m None).
Proof.
  intros better m Hne. destruct m as [|[|v row] rows]; try discriminate Hne.
  cbn [cv2.scan_rows]. apply scan_rows_keeps; [lia|].
  apply scan_row_located; [lia | lia |]. right. split; [reflexivity | discriminate].
Qed.

Lemma empty_map : forall (A B : Type) (f : A -> B) (m : Mat A),
  cv2.empty (map (map f) m) = cv2.empty m.
Proof. intros A B f m. destruct m as [|[|a row] rows]; reflexivity. Qed.

(** On a frame that has pixels the bright spot is a pixel position, not
    the placeholder of the empty scan. *)
Lemma bright_spot_located : forall to_gray frame,
  cv2.empty frame = false ->
  0 <= fst (bright_spot to_gray frame) /\ 0 <= snd (bright_spot to_gray frame).
Proof.
  intros to_gray frame Hne. unfold bright_spot, cv2.minMaxLoc.
  assert (Hg : cv2.empty (map (map to_gray) frame) = false)
    by (rewrite empty_map; exact Hne).
  pose proof (scan_rows_nonempty (fun v m => v <? m) _ Hg) as Hlo.
  pose proof (scan_rows_nonempty (fun v m => m <? v) _ Hg) as Hhi.
  destruct (cv2.scan_rows (fun v m => v <? m) 0 (map (map to_gray) frame) None)
    as [[mn [lx ly]]|]; [|contradiction].
  destruct (cv2.scan_rows (fun v m => m <? v) 0 (map (map to_gray) frame) None)
    as [[mx [hx hy]]|]; [|contradiction].
  exact Hhi.
Qed.

(** ** Failure of the locator *)

(** C6, as the code has it.  The locator has no test of its own for an
    empty frame and no error class of its own.  It fails exactly on the
    frames without pixels, and the failure is the exception that Pillow
    raises when [_update_sensor] saves the frame, before any OpenCV call
    is reached; it is never [EmptyFrameError].  On every frame that has
    pixels it returns the move command of the bright spot, and there is no
    other failure. *)
Theorem C6_locator_fails_in_the_sensor : forall to_gray frame s,
  (cv2.empty frame = true ->
     _update_sensor frame s = Raised PIL.error /\
     _find_bright_spot to_gray frame s = Raised PIL.error) /\
  (cv2.empty frame = false ->
     0 <= fst (bright_spot to_gray frame) /\ 0 <= snd (bright_spot to_gray frame) /\
     exists s', _find_bright_spot to_gray frame s =
       Returned (move_command (center s) (t s) (bright_spot to_gray frame), s')) /\
  (forall e, _find_bright_spot to_gray frame s = Raised e ->
     e = PIL.error /\ cv2.empty frame = true) /\
  _find_bright_spot to_gray frame s <> Raised EmptyFrameError /\
  _find_bright_spot to_gray frame s <> Raised cv2.error.
Proof.
  intros to_gray frame s.
  split.
  { intros He. split; [|apply find_bright_spot_empty; exact He].
    unfold _update_sensor, PIL.save, PIL.fromarray, bind. rewrite He. reflexivity. }
  split.
  { intros Hne. destruct (bright_spot_located to_gray frame Hne) as [Hx Hy].
    split; [exact Hx|]. split; [exact Hy|].
    eexists. apply (find_bright_spot_nonempty _ _ _ Hne). }
  destruct (cv2.empty frame) eqn:He.
  - rewrite (find_bright_spot_empty _ _ _ He). split.
    + intros e H. injection H as <-. split; reflexivity.
    + split; intros H; discriminate H.
  - rewrite (find_bright_spot_nonempty _ _ _ He). split.
    + intros e H. discriminate H.
    + split; intros H; discriminate H.
Qed.

(** A frame without rows fails in the sensor; a frame of one pixel is
    located at (0, 0), which a fresh tracker reads as (LEFT, UP). *)
Lemma C6_locator_fails_in_the_sensor_witness :
  _find_bright_spot luma [] (self fresh) = Raised PIL.error /\
  exists s', _find_bright_spot luma [[white]] (self fresh) = Returned ((LEFT, UP), s').
Proof.
  destruct (C6_locator_fails_in_the_sensor luma [] (self fresh)) as (Hempty & _).
  destruct (C6_locator_fails_in_the_sensor luma [[white]] (self fresh))
    as (_ & Hfull & _).
  split; [apply Hempty; reflexivity |
          destruct Hfull as (_ & _ & Hret); [reflexivity | exact Hret]].
Defined.

(** C6 as it is worded fails on the frame without rows: it has zero area,
    the locator fails on it, and the error is not [EmptyFrameError]. *)
Lemma C6_empty_frame_is_not_EmptyFrameError :
  cv2.empty (@nil (list rgba)) = true /\
  _find_bright_spot luma [] (self fresh) = Raised PIL.error /\
  ~ (_find_bright_spot luma [] (self fresh) = Raised EmptyFrameError).
Proof.
  split; [reflexivity|]. split; [reflexivity|].
  intros H. vm_compute in H. discriminate H.
Qed.

(** ** Invariants of the reachable worlds *)

Lemma run_reachable : forall to_gray ops w w',
  reachable to_gray w -> run to_gray ops w = Returned w' -> reachable to_gray w'.
Proof.
  intros to_gray ops. induction ops as [|o ops IH]; intros w w' Hw Hrun.
  - cbn [run] in Hrun. injection Hrun as <-. exact Hw.
  - cbn [run] in Hrun. destruct (step_op to_gray o w) as [w1|e] eqn:Hstep.
    + cbn [bind] in Hrun. apply (IH w1 w'); [|exact Hrun].
      exact (reachable_step to_gray o w w1 Hw Hstep).
    + discriminate Hrun.
Qed.

Lemma reachable_stride : forall to_gray w,
  reachable to_gray w ->
  step (self w) = 1 /\ frame_step (self w) = 5 /\ 0 <= frame_no (self w).
Proof.
  intros to_gray w Hw. induction Hw as [scene | o w w' Hw IH Hstep].
  - repeat split. discriminate.
  - destruct IH as (Hs & Hf & Hn).
    destruct (step_op_effect _ _ _ _ Hstep) as (Hs' & Hf' & Hn' & _).
    rewrite Hs', Hf'. repeat split; try assumption.
    destruct Hn' as [E | E]; rewrite E; lia.
Qed.

(** C8. A fresh tracker is at frame 0.  In every reachable world the frame
    number is at least 0 and the stride is 5, and every call that returns
    (an iteration on any frame, or any of the four moves) leaves the frame
    number where it was or adds the stride to it. *)
Theorem C8_frame_no_never_decreases : forall to_gray w,
  reachable to_gray w ->
  (forall scene, frame_no (self (__init__ scene)) = 0) /\
  0 <= frame_no (self w) /\
  frame_step (self w) = 5 /\
  (forall o w', step_op to_gray o w = Returned w' ->
     frame_no (self w) <= frame_no (self w') /\
     (frame_no (self w') = frame_no (self w) \/
      frame_no (self w') = frame_no (self w) + 5)) /\
  (forall ops w', run to_gray ops w = Returned w' ->
     frame_no (self w) <= frame_no (self w')).
Proof.
  intros to_gray w Hw.
  destruct (reachable_stride _ _ Hw) as (_ & Hf & Hn).
  split; [reflexivity|]. split; [exact Hn|]. split; [exact Hf|].
  assert (Hone : forall v o v', reachable to_gray v ->
            step_op to_gray o v = Returned v' ->
            frame_no (self v) <= frame_no (self v') /\
            (frame_no (self v') = frame_no (self v) \/
             frame_no (self v') = frame_no (self v) + 5)).
  { intros v o v' Hv Hstep.
    destruct (reachable_stride _ _ Hv) as (_ & Hfv & _).
    destruct (step_op_effect _ _ _ _ Hstep) as (_ & _ & Hn' & _).
    rewrite Hfv in Hn'. split; [destruct Hn' as [E | E]; rewrite E; lia | exact Hn']. }
  split; [intros o w'; apply Hone; exact Hw|].
  intros ops. revert w Hw Hf Hn.
  induction ops as [|o ops IH]; intros w Hw _ _ w' Hrun.
  - cbn [run] in Hrun. injection Hrun as <-. lia.
  - cbn [run] in Hrun. destruct (step_op to_gray o w) as [w1|e] eqn:Hstep.
    + cbn [bind] in Hrun.
      pose proof (reachable_step to_gray o w w1 Hw Hstep) as Hw1.
      destruct (reachable_stride _ _ Hw1) as (_ & Hf1 & Hn1).
      destruct (Hone w o w1 Hw Hstep) as [Hle _].
      specialize (IH w1 Hw1 Hf1 Hn1 w' Hrun). lia.
    + discriminate Hrun.
Qed.

(** A fresh tracker sees the spot at (0, 0): frame 0 becomes frame 5; a
    rotation move then leaves it at 5. *)
Lemma C8_frame_no_never_decreases_witness :
  frame_no (self fresh) = 0 /\
  exists w', step_op luma (Iterate [[white; black]; [black; black]]) fresh = Returned w' /\
    frame_no (self w') = 5 /\
    frame_no (self fresh) <= frame_no (self w') /\
    frame_no (self w') <= frame_no (self (_increase_rotation w')).
Proof.
  destruct (C8_frame_no_never_decreases luma fresh (reachable_init luma scene0))
    as (H0 & _ & _ & Hstep & _).
  pose proof (iterate_nonempty luma [[white; black]; [black; black]] fresh (LEFT, UP)
                eq_refl eq_refl) as Hit.
  split; [apply H0|].
  eexists. split; [exact Hit|].
  split; [reflexivity|]. split.
  - exact (proj1 (Hstep (Iterate [[white; black]; [black; black]]) _ Hit)).
  - vm_compute. discriminate.
Defined.

(** C9. The flag starts down, and once it is up no call brings it down:
    not an iteration on any frame, not a rotation move, not a tilt move in
    either direction, whether it respects its bound or not; the same holds
    along any sequence of calls. *)
Theorem C9_impossible_move_is_sticky : forall to_gray w,
  impossible_move (self w) = true ->
  (forall scene, impossible_move (self (__init__ scene)) = false) /\
  (forall o w', step_op to_gray o w = Returned w' ->
     impossible_move (self w') = true) /\
  (forall ops w', run to_gray ops w = Returned w' ->
     impossible_move (self w') = true).
Proof.
  intros to_gray w Hflag.
  split; [reflexivity|]. split.
  - intros o w' Hstep. apply (step_op_effect _ _ _ _ Hstep). exact Hflag.
  - intros ops. revert w Hflag.
    induction ops as [|o ops IH]; intros w Hflag w' Hrun.
    + cbn [run] in Hrun. injection Hrun as <-. exact Hflag.
    + cbn [run] in Hrun. destruct (step_op to_gray o w) as [w1|e] eqn:Hstep.
      * cbn [bind] in Hrun. apply (IH w1); [|exact Hrun].
        apply (step_op_effect _ _ _ _ Hstep). exact Hflag.
      * discriminate Hrun.
Qed.

(** At tilt 90 a step up raises the flag; the step down that follows is
    accepted (the motor is set to 90 degrees) and the flag stays up, also
    after an iteration that converges. *)
Lemma C9_impossible_move_is_sticky_witness :
  impossible_move (self at_upper_bound) = false /\
  impossible_move (self (_increase_tilt at_upper_bound)) = true /\
  host_tilt (_decrease_tilt (_increase_tilt at_upper_bound)) = math.radians 90 /\
  impossible_move (self (_decrease_tilt (_increase_tilt at_upper_bound))) = true /\
  exists w', run luma [DecreaseTilt; IncreaseRotation; Iterate [[white]]]
               (_increase_tilt at_upper_bound) = Returned w' /\
             impossible_move (self w') = true.
Proof.
  assert (Hup : impossible_move (self (_increase_tilt at_upper_bound)) = true)
    by (vm_compute; reflexivity).
  destruct (C9_impossible_move_is_sticky luma _ Hup) as (_ & Hstep & Hrun).
  split; [vm_compute; reflexivity|]. split; [exact Hup|].
  split; [vm_compute; reflexivity|].
  split; [exact (Hstep DecreaseTilt _ eq_refl)|].
  destruct (run luma [DecreaseTilt; IncreaseRotation; Iterate [[white]]]
              (_increase_tilt at_upper_bound)) as [w'|e] eqn:E.
  - exists w'. split; [reflexivity | exact (Hrun _ _ E)].
  - vm_compute in E. discriminate E.
Defined.

(** ** The tilt bound *)

Lemma step_op_in_bounds : forall to_gray o w w',
  in_bounds w -> step_op to_gray o w = Returned w' -> in_bounds w'.
Proof.
  intros to_gray o w w' Hinv H.
  assert (Hmove : forall m : World -> World,
            m = _increase_tilt \/ m = _decrease_tilt \/
            m = _increase_rotation \/ m = _decrease_rotation ->
            in_bounds (m w)).
  { intros m Hm. destruct w as [[] [[] []]]. unfold in_bounds in *.
    cbn [self step impossible_move tilt host_tilt objects motor_tilt rotation_euler] in Hinv.
    destruct Hinv as [Hs Hb]. subst.
    destruct Hm as [-> | [-> | [-> | ->]]]; run_iteration;
      (split; [reflexivity|]); intros Hflag; try discriminate Hflag;
      destruct (Hb Hflag) as [Hr Hh]; (split; [lia|]);
      first [reflexivity | exact Hh]. }
  destruct o as [frame | | | |]; cbn [step_op] in H.
  - pose proof (iterate_returned _ _ _ _ H) as Hne.
    destruct (move_command (center (self w)) (t (self w)) (bright_spot to_gray frame))
      as [dx dy] eqn:Hd.
    rewrite (iterate_nonempty _ _ _ _ Hne Hd) in H. clear Hd Hne Hmove.
    apply (f_equal (fun r => match r with Returned a => a | Raised _ => w end)) in H.
    subst w'. destruct w as [[] [[] []]]. unfold in_bounds in *.
    cbn [self step impossible_move tilt host_tilt objects motor_tilt rotation_euler] in Hinv.
    destruct Hinv as [Hs Hb]. subst.
    destruct dx, dy; run_iteration;
      (split; [reflexivity|]); intros Hflag; try discriminate Hflag;
      destruct (Hb Hflag) as [Hr Hh]; (split; [lia|]);
      first [reflexivity | exact Hh].
  - injection H as <-. apply Hmove. auto.
  - injection H as <-. apply Hmove. auto.
  - injection H as <-. apply Hmove. auto.
  - injection H as <-. apply Hmove. auto.
Qed.

(** While no move was refused the tilt motor is within its bounds: in
    every reachable world whose flag is down, the motor holds the counter
    and the counter is between 0 and 90. *)
Lemma host_tilt_bounded_while_unflagged : forall to_gray w,
  reachable to_gray w ->
  impossible_move (self w) = false ->
  0 <= math.degrees (host_tilt w) <= 90 /\
  host_tilt w = math.radians (tilt (self w)).
Proof.
  intros to_gray w Hw.
  assert (Hinv : in_bounds w).
  { induction Hw as [scene | o w w' Hw IH Hstep].
    - split; [reflexivity|]. intros _.
      split; [change (0 <= 0 <= 90); lia | reflexivity].
    - exact (step_op_in_bounds _ _ _ _ IH Hstep). }
  intros Hflag. destruct Hinv as [_ Hb]. destruct (Hb Hflag) as [Hr Hh].
  rewrite Hh. split; [exact Hr | reflexivity].
Qed.

(** C2 fails on the code.  From a fresh tracker, 92 steps up followed by
    one step down hand 91 degrees to the tilt motor, and two steps down
    followed by one step up hand it -1 degree: both worlds are reachable
    and in both the motor is outside [0, 90].  Rotation is handed over
    without bound. *)
Theorem C2_host_tilt_leaves_the_bounds :
  (exists w, run luma (repeat IncreaseTilt 92 ++ [DecreaseTilt]) fresh = Returned w /\
     reachable luma w /\
     host_tilt w = math.radians 91 /\
     ~ (0 <= math.degrees (host_tilt w) <= 90)) /\
  (exists w, run luma [DecreaseTilt; DecreaseTilt; IncreaseTilt] fresh = Returned w /\
     reachable luma w /\
     host_tilt w = math.radians (-1) /\
     ~ (0 <= math.degrees (host_tilt w) <= 90)) /\
  (exists w, run luma (repeat DecreaseRotation 400) fresh = Returned w /\
     host_rotation w = math.radians (-400)).
Proof.
  split; [|split].
  - destruct (run luma (repeat IncreaseTilt 92 ++ [DecreaseTilt]) fresh) as [w|e] eqn:E.
    + exists w. split; [reflexivity|].
      split; [exact (run_reachable _ _ _ _ (reachable_init luma scene0) E)|].
      vm_compute in E. injection E as <-. split; [reflexivity|].
      cbn. lia.
    + vm_compute in E. discriminate E.
  - destruct (run luma [DecreaseTilt; DecreaseTilt; IncreaseTilt] fresh) as [w|e] eqn:E.
    + exists w. split; [reflexivity|].
      split; [exact (run_reachable _ _ _ _ (reachable_init luma scene0) E)|].
      vm_compute in E. injection E as <-. split; [reflexivity|].
      cbn. lia.
    + vm_compute in E. discriminate E.
  - eexists. split; [vm_compute; reflexivity | reflexivity].
Qed.

(** * Further properties of the control loop *)

(** ** The complete effect of one iteration *)

Lemma iterate_after_command : forall to_gray frame w d,
  cv2.empty frame = false ->
  move_command (center (self w)) (t (self w)) (bright_spot to_gray frame) = d ->
  iterate to_gray frame w = Returned (after_command to_gray frame d w).
Proof. intros. apply iterate_nonempty; assumption. Qed.

(** Every attribute and both motors after the command [(dx, dy)], in terms
    of the world before it. *)
Lemma after_command_effect : forall to_gray frame dx dy w,
  let w' := after_command to_gray frame (dx, dy) w in
  dir_x (self w') = Some dx /\
  dir_y (self w') = Some dy /\
  step (self w') = step (self w) /\
  center (self w') = center (self w) /\
  t (self w') = t (self w) /\
  res_x (self w') = res_x (self w) /\
  res_y (self w') = res_y (self w) /\
  frame_step (self w') = frame_step (self w) /\
  rotation (self w') =
    match dx with
    | RIGHT => rotation (self w) - step (self w)
    | LEFT => rotation (self w) + step (self w)
    | _ => rotation (self w)
    end /\
  host_rotation w' =
    match dx with
    | RIGHT => math.radians (rotation (self w) - step (self w))
    | LEFT => math.radians (rotation (self w) + step (self w))
    | _ => host_rotation w
    end /\
  tilt (self w') =
    match dy with
    | DOWN => tilt (self w) - step (self w)
    | UP => tilt (self w) + step (self w)
    | _ => tilt (self w)
    end /\
  host_tilt w' =
    match dy with
    | DOWN => if tilt (self w) - step (self w) <? 0 then host_tilt w
              else math.radians (tilt (self w) - step (self w))
    | UP => if 90 <? tilt (self w) + step (self w) then host_tilt w
            else math.radians (tilt (self w) + step (self w))
    | _ => host_tilt w
    end /\
  impossible_move (self w') =
    match dy with
    | DOWN => if tilt (self w) - step (self w) <? 0 then true
              else impossible_move (self w)
    | UP => if 90 <? tilt (self w) + step (self w) then true
            else impossible_move (self w)
    | _ => impossible_move (self w)
    end /\
  frame_no (self w') =
    match dy with
    | UP => frame_no (self w) + frame_step (self w)
    | _ => frame_no (self w)
    end /\
  tilt_keyframes w' =
    match dy with
    | UP => tilt_keyframes w ++ [(frame_no (self w) + frame_step (self w), host_tilt w')]
    | _ => tilt_keyframes w
    end /\
  rotation_keyframes w' =
    match dy with
    | UP => rotation_keyframes w ++
              [(frame_no (self w) + frame_step (self w), host_rotation w')]
    | _ => rotation_keyframes w
    end.
Proof.
  intros to_gray frame dx dy w. unfold after_command.
  destruct w as [[] [[] []]].
  destruct dx, dy; run_iteration; repeat split.
Qed.

Lemma move_command_sides : forall c tol spot,
  (fst (move_command c tol spot) = RIGHT \/ fst (move_command c tol spot) = LEFT \/
   fst (move_command c tol spot) = CENTER) /\
  (snd (move_command c tol spot) = DOWN \/ snd (move_command c tol spot) = UP \/
   snd (move_command c tol spot) = CENTER).
Proof.
  intros c tol [x y]. unfold move_command. cbn [fst snd].
  destruct ((c - tol <? x) && (x <? c + tol)), ((c - tol <? y) && (y <? c + tol)),
    (x >=? c), (y >=? c); auto.
Qed.

(** X1. One iteration on a frame that has pixels returns, stores the
    command of the bright spot in [dir_x] and [dir_y], and moves each
    counter by one step against the offset of the spot: rotation goes down
    for RIGHT and up for LEFT, tilt goes down for DOWN and up for UP, and
    an axis whose direction is CENTER keeps its counter and its motor.
    The rotate motor receives the new rotation whenever it moves.  The
    horizontal direction is never UP or DOWN and the vertical one never
    LEFT or RIGHT. *)
Theorem X1_iteration_steps_against_offset : forall to_gray frame w,
  cv2.empty frame = false ->
  exists dx dy w',
    move_command (center (self w)) (t (self w)) (bright_spot to_gray frame) = (dx, dy) /\
    iterate to_gray frame w = Returned w' /\
    dir_x (self w') = Some dx /\ dir_y (self w') = Some dy /\
    (dx = RIGHT /\ rotation (self w') = rotation (self w) - step (self w) /\
       host_rotation w' = math.radians (rotation (self w'))
     \/ dx = LEFT /\ rotation (self w') = rotation (self w) + step (self w) /\
       host_rotation w' = math.radians (rotation (self w'))
     \/ dx = CENTER /\ rotation (self w') = rotation (self w) /\
       host_rotation w' = host_rotation w) /\
    (dy = DOWN /\ tilt (self w') = tilt (self w) - step (self w)
     \/ dy = UP /\ tilt (self w') = tilt (self w) + step (self w)
     \/ dy = CENTER /\ tilt (self w') = tilt (self w) /\ host_tilt w' = host_tilt w).
Proof.
  intros to_gray frame w Hne.
  destruct (move_command (center (self w)) (t (self w)) (bright_spot to_gray frame))
    as [dx dy] eqn:Hd.
  exists dx, dy, (after_command to_gray frame (dx, dy) w).
  split; [reflexivity|]. split; [exact (iterate_after_command _ _ _ _ Hne Hd)|].
  destruct (after_command_effect to_gray frame dx dy w)
    as (Hx & Hy & _ & _ & _ & _ & _ & _ & Hr & Hhr & Ht & Hht & _).
  split; [exact Hx|]. split; [exact Hy|].
  destruct (move_command_sides (center (self w)) (t (self w)) (bright_spot to_gray frame))
    as [Hsx Hsy].
  rewrite Hd in Hsx, Hsy. cbn [fst snd] in Hsx, Hsy.
  split.
  - destruct Hsx as [-> | [-> | ->]].
    + left. rewrite Hhr, Hr. repeat split.
    + right. left. rewrite Hhr, Hr. repeat split.
    + right. right. rewrite Hhr, Hr. repeat split.
  - destruct Hsy as [-> | [-> | ->]].
    + left. split; [reflexivity | exact Ht].
    + right. left. split; [reflexivity | exact Ht].
    + right. right. split; [reflexivity|]. split; [exact Ht | exact Hht].
Qed.

(** A fresh tracker and one pixel, which is the bright spot at (0, 0):
    the command is (LEFT, UP), rotation goes to 1 and tilt to 1. *)
Lemma X1_iteration_steps_against_offset_witness :
  exists w', iterate luma [[white]] fresh = Returned w' /\
    dir_x (self w') = Some LEFT /\ dir_y (self w') = Some UP /\
    rotation (self w') = 1 /\ tilt (self w') = 1.
Proof.
  destruct (X1_iteration_steps_against_offset luma [[white]] fresh eq_refl)
    as (dx & dy & w' & Hd & Hit & Hx & Hy & _).
  injection Hd as <- <-.
  exists w'. split; [exact Hit|]. split; [exact Hx|]. split; [exact Hy|].
  rewrite (iterate_after_command luma [[white]] fresh (LEFT, UP) eq_refl eq_refl) in Hit.
  injection Hit as <-. split; reflexivity.
Defined.

(** ** What a tracker built by [__init__] keeps *)

Lemma step_op_after_command : forall to_gray o w w',
  step_op to_gray o w = Returned w' ->
  w' = _increase_tilt w \/ w' = _decrease_tilt w \/
  w' = _increase_rotation w \/ w' = _decrease_rotation w \/
  exists frame dx dy, w' = after_command to_gray frame (dx, dy) w.
Proof.
  intros to_gray o w w' H. destruct o as [frame | | | |]; cbn [step_op] in H.
  - pose proof (iterate_returned _ _ _ _ H) as Hne.
    destruct (move_command (center (self w)) (t (self w)) (bright_spot to_gray frame))
      as [dx dy] eqn:Hd.
    rewrite (iterate_after_command _ _ _ _ Hne Hd) in H. injection H as <-.
    right. right. right. right. exists frame, dx, dy. reflexivity.
  - injection H as <-. auto.
  - injection H as <-. auto.
  - injection H as <-. auto.
  - injection H as <-. auto.
Qed.

Lemma step_op_keeps_rotation_in_step : forall to_gray o w w',
  step_op to_gray o w = Returned w' ->
  host_rotation w = math.radians (rotation (self w)) ->
  host_rotation w' = math.radians (rotation (self w')).
Proof.
  intros to_gray o w w' H Hsync.
  destruct (step_op_after_command _ _ _ _ H)
    as [-> | [-> | [-> | [-> | (frame & dx & dy & ->)]]]].
  - destruct w as [[] [[] []]]. revert Hsync. run_iteration; auto.
  - destruct w as [[] [[] []]]. revert Hsync. run_iteration; auto.
  - reflexivity.
  - reflexivity.
  - destruct (after_command_effect to_gray frame dx dy w)
      as (_ & _ & _ & _ & _ & _ & _ & _ & Hr & Hhr & _).
    rewrite Hhr, Hr. destruct dx; try reflexivity; exact Hsync.
Qed.

Lemma step_op_keeps_configuration : forall to_gray o w w',
  step_op to_gray o w = Returned w' ->
  step (self w') = step (self w) /\
  center (self w') = center (self w) /\
  t (self w') = t (self w) /\
  res_x (self w') = res_x (self w) /\
  res_y (self w') = res_y (self w) /\
  frame_step (self w') = frame_step (self w).
Proof.
  intros to_gray o w w' H.
  destruct (step_op_after_command _ _ _ _ H)
    as [-> | [-> | [-> | [-> | (frame & dx & dy & ->)]]]].
  - destruct w as [[] [[] []]]. run_iteration; repeat split.
  - destruct w as [[] [[] []]]. run_iteration; repeat split.
  - repeat split.
  - repeat split.
  - destruct (after_command_effect to_gray frame dx dy w)
      as (_ & _ & Hs & Hc & Ht & Hrx & Hry & Hf & _).
    repeat split; assumption.
Qed.

(** X2. The rotate motor never drifts from its counter: in every world
    that a tracker built by [__init__] can reach, by iterations on any
    frames and by direct calls of the four moves, the rotate motor holds
    exactly [math.radians] of [self.rotation]. *)
Theorem X2_rotate_motor_follows_counter : forall to_gray w,
  reachable to_gray w ->
  host_rotation w = math.radians (rotation (self w)).
Proof.
  intros to_gray w Hw. induction Hw as [scene | o w w' Hw IH Hstep].
  - reflexivity.
  - exact (step_op_keeps_rotation_in_step _ _ _ _ Hstep IH).
Qed.

(** After three steps to the left and one refused step down the rotate
    motor holds 3 degrees, the value of the counter. *)
Lemma X2_rotate_motor_follows_counter_witness :
  exists w, run luma [IncreaseRotation; IncreaseRotation; DecreaseTilt; IncreaseRotation]
              fresh = Returned w /\
    rotation (self w) = 3 /\ host_rotation w = math.radians 3.
Proof.
  eexists. split; [reflexivity|]. split; [reflexivity|].
  refine (X2_rotate_motor_follows_counter luma _ _).
  eapply (run_reachable luma
            [IncreaseRotation; IncreaseRotation; DecreaseTilt; IncreaseRotation] fresh).
  - apply reachable_init.
  - reflexivity.
Defined.

(** X3. The dead zone of a tracker built by [__init__] is fixed: in every
    reachable world the step is 1 degree, the stride 5 frames, the
    resolution 512 x 512, the centre 256 and the tolerance 32, so an
    iteration on a frame that has pixels classifies the bright spot (x, y)
    with centre 256 and tolerance 32, and it converges exactly when
    224 < x < 288 and 224 < y < 288. *)
Theorem X3_dead_zone_is_fixed : forall to_gray w frame,
  reachable to_gray w ->
  cv2.empty frame = false ->
  (step (self w) = 1 /\ frame_step (self w) = 5 /\
   res_x (self w) = 512 /\ res_y (self w) = 512 /\
   center (self w) = 256 /\ t (self w) = 32) /\
  exists w', iterate to_gray frame w = Returned w' /\
    (dir_x (self w'), dir_y (self w')) =
      (Some (fst (move_command 256 32 (bright_spot to_gray frame))),
       Some (snd (move_command 256 32 (bright_spot to_gray frame)))) /\
    ((dir_x (self w') = Some CENTER /\ dir_y (self w') = Some CENTER) <->
     (224 < fst (bright_spot to_gray frame) < 288 /\
      224 < snd (bright_spot to_gray frame) < 288)).
Proof.
  intros to_gray w frame Hw Hne.
  assert (Hcfg : step (self w) = 1 /\ frame_step (self w) = 5 /\
                 res_x (self w) = 512 /\ res_y (self w) = 512 /\
                 center (self w) = 256 /\ t (self w) = 32).
  { clear Hne. induction Hw as [scene | o w w' Hw IH Hstep].
    - repeat split.
    - destruct (step_op_keeps_configuration _ _ _ _ Hstep)
        as (Hs & Hc & Ht & Hrx & Hry & Hf).
      rewrite Hs, Hc, Ht, Hrx, Hry, Hf. exact IH. }
  split; [exact Hcfg|].
  destruct Hcfg as (_ & _ & _ & _ & Hc & Ht).
  destruct (bright_spot to_gray frame) as [x y] eqn:Hspot.
  destruct (move_command 256 32 (x, y)) as [dx dy] eqn:Hd.
  exists (after_command to_gray frame (dx, dy) w). split.
  - apply iterate_after_command; [exact Hne|]. rewrite Hc, Ht, Hspot. exact Hd.
  - destruct (after_command_effect to_gray frame dx dy w) as (Hx & Hy & _).
    rewrite Hx, Hy. cbn [fst snd]. split; [reflexivity|].
    pose proof (move_command_spec 256 32 x y) as Hrule. rewrite Hd in Hrule.
    unfold spec_classify in Hrule. cbn [fst snd] in Hrule.
    injection Hrule as Hdx Hdy.
    pose proof (spec_axis_center RIGHT LEFT 256 32 x) as Hcx.
    pose proof (spec_axis_center DOWN UP 256 32 y) as Hcy.
    rewrite <- Hdx in Hcx. rewrite <- Hdy in Hcy.
    split.
    + intros [Ex Ey]. injection Ex as Ex. injection Ey as Ey.
      split; [apply Hcx | apply Hcy]; (discriminate || assumption).
    + intros [Hix Hiy]. split; f_equal; [apply Hcx | apply Hcy];
        (discriminate || lia).
Qed.

(** A fresh tracker moved once by hand, then shown the frame of default
    size with the spot at (256, 256): the iteration converges. *)
Lemma X3_dead_zone_is_fixed_witness :
  exists w', iterate luma (spot_frame 512 512 256 256) (_increase_rotation fresh)
               = Returned w' /\
    dir_x (self w') = Some CENTER /\ dir_y (self w') = Some CENTER.
Proof.
  destruct spot_256_256 as [Hne Hspot].
  destruct (X3_dead_zone_is_fixed luma (_increase_rotation fresh)
              (spot_frame 512 512 256 256)) as (_ & w' & Hit & _ & Hiff).
  - exact (reachable_step luma IncreaseRotation fresh _ (reachable_init luma scene0) eq_refl).
  - exact Hne.
  - exists w'. split; [exact Hit|]. apply Hiff. rewrite Hspot. cbn [fst snd]. lia.
Defined.

(** X4. No silent violation of the tilt bound: in every world that a
    tracker built by [__init__] can reach, as long as [impossible_move] is
    False the tilt counter is within [0, 90] and the tilt motor holds
    exactly the counter; so whenever the tilt motor is outside [0, 90], or
    differs from the counter, the flag is up. *)
Theorem X4_tilt_violation_is_flagged : forall to_gray w,
  reachable to_gray w ->
  (impossible_move (self w) = false ->
     0 <= tilt (self w) <= 90 /\ host_tilt w = math.radians (tilt (self w))) /\
  (~ (0 <= math.degrees (host_tilt w) <= 90) -> impossible_move (self w) = true) /\
  (host_tilt w <> math.radians (tilt (self w)) -> impossible_move (self w) = true).
Proof.
  intros to_gray w Hw.
  assert (Hinv : in_bounds w).
  { induction Hw as [scene | o w w' Hw IH Hstep].
    - split; [reflexivity|]. intros _.
      split; [change (0 <= 0 <= 90); lia | reflexivity].
    - exact (step_op_in_bounds _ _ _ _ IH Hstep). }
  destruct Hinv as [_ Hb]. split; [exact Hb|]. split.
  - intros Hout. destruct (impossible_move (self w)); [reflexivity|].
    destruct (Hb eq_refl) as [Hr Hh]. exfalso. apply Hout.
    rewrite Hh. exact Hr.
  - intros Hdiff. destruct (impossible_move (self w)); [reflexivity|].
    destruct (Hb eq_refl) as [_ Hh]. contradiction.
Qed.

(** After 90 accepted steps up the flag is down and the motor holds the
    counter 90; after two refused steps down and one step up the motor
    holds -1 degree and the flag is up. *)
Lemma X4_tilt_violation_is_flagged_witness :
  (impossible_move (self at_upper_bound) = false /\
   tilt (self at_upper_bound) = 90 /\
   host_tilt at_upper_bound = math.radians (tilt (self at_upper_bound))) /\
  exists w, run luma [DecreaseTilt; DecreaseTilt; IncreaseTilt] fresh = Returned w /\
    host_tilt w = math.radians (-1) /\ impossible_move (self w) = true.
Proof.
  split.
  - assert (Hrun : run luma (repeat IncreaseTilt 90) fresh = Returned at_upper_bound)
      by (vm_compute; reflexivity).
    pose proof (run_reachable luma _ _ _ (reachable_init luma scene0) Hrun) as Hreach.
    destruct (X4_tilt_violation_is_flagged luma at_upper_bound Hreach) as (Hin & _).
    split; [vm_compute; reflexivity|]. split; [vm_compute; reflexivity|].
    apply Hin. vm_compute. reflexivity.
  - destruct (run luma [DecreaseTilt; DecreaseTilt; IncreaseTilt] fresh) as [w|e] eqn:Hrun;
      [|vm_compute in Hrun; discriminate Hrun].
    pose proof (run_reachable luma _ _ _ (reachable_init luma scene0) Hrun) as Hreach.
    destruct (X4_tilt_violation_is_flagged luma w Hreach) as (_ & Hout & _).
    vm_compute in Hrun. injection Hrun as Hw.
    exists w. split; [reflexivity|]. split; [rewrite <- Hw; reflexivity|].
    apply Hout. rewrite <- Hw. vm_compute. intros [H _]. apply H. reflexivity.
Defined.

(** ** The moves, one by one and together *)

(** X5. Each tilt guard is one-sided and exact.  In every world
    [_increase_tilt] either leaves the tilt motor alone or sets it to at
    most 90 degrees, and [_decrease_tilt] either leaves it alone or sets it
    to at least 0 degrees.  A tilt move raises the flag exactly when the
    new counter is past its bound (above 90 going up, below 0 going down)
    and otherwise leaves the flag as it was; neither move ever touches the
    rotation counter, the rotate motor or a keyframe. *)
Theorem X5_tilt_guards_are_one_sided : forall w,
  (host_tilt (_increase_tilt w) = host_tilt w \/
   math.degrees (host_tilt (_increase_tilt w)) <= 90) /\
  (host_tilt (_decrease_tilt w) = host_tilt w \/
   0 <= math.degrees (host_tilt (_decrease_tilt w))) /\
  impossible_move (self (_increase_tilt w)) =
    (if 90 <? tilt (self w) + step (self w) then true else impossible_move (self w)) /\
  impossible_move (self (_decrease_tilt w)) =
    (if tilt (self w) - step (self w) <? 0 then true else impossible_move (self w)) /\
  (rotation (self (_increase_tilt w)) = rotation (self w) /\
   motor_rotate (objects (_increase_tilt w)) = motor_rotate (objects w) /\
   tilt_keyframes (_increase_tilt w) = tilt_keyframes w) /\
  (rotation (self (_decrease_tilt w)) = rotation (self w) /\
   motor_rotate (objects (_decrease_tilt w)) = motor_rotate (objects w) /\
   tilt_keyframes (_decrease_tilt w) = tilt_keyframes w).
Proof.
  intros w. destruct w as [[] [[] []]].
  run_iteration; repeat split; first [left; reflexivity | right; cbn; lia].
Qed.

(** X6. Opposite moves cancel on the counters, in every world and in
    either order.  On the whole world they cancel when the motor holds the
    counter and, for tilt, when both values stay within [0, 90]; a refused
    tilt move is not cancelled: the counter comes back but the flag stays
    up. *)
Theorem X6_opposite_moves_cancel : forall w,
  (rotation (self (_decrease_rotation (_increase_rotation w))) = rotation (self w) /\
   rotation (self (_increase_rotation (_decrease_rotation w))) = rotation (self w) /\
   tilt (self (_decrease_tilt (_increase_tilt w))) = tilt (self w) /\
   tilt (self (_increase_tilt (_decrease_tilt w))) = tilt (self w)) /\
  (host_rotation w = math.radians (rotation (self w)) ->
     _decrease_rotation (_increase_rotation w) = w /\
     _increase_rotation (_decrease_rotation w) = w) /\
  (host_tilt w = math.radians (tilt (self w)) ->
     0 <= tilt (self w) -> tilt (self w) + step (self w) <= 90 ->
     _decrease_tilt (_increase_tilt w) = w) /\
  (host_tilt w = math.radians (tilt (self w)) ->
     0 <= tilt (self w) - step (self w) -> tilt (self w) <= 90 ->
     _increase_tilt (_decrease_tilt w) = w) /\
  (90 < tilt (self w) + step (self w) ->
     impossible_move (self (_decrease_tilt (_increase_tilt w))) = true) /\
  (tilt (self w) - step (self w) < 0 ->
     impossible_move (self (_increase_tilt (_decrease_tilt w))) = true).
Proof.
  intros w. destruct w as [[] [[] []]].
  assert (Hadd : forall a b : Z, a + b - b = a) by (intros; lia).
  assert (Hsub : forall a b : Z, a - b + b = a) by (intros; lia).
  split; [|split; [|split; [|split; [|split]]]].
  - run_iteration; repeat split; lia.
  - cbn [host_rotation objects motor_rotate rotation_euler self rotation].
    intros ->. split; run_iteration; rewrite ?Hadd, ?Hsub; reflexivity.
  - cbn [host_tilt objects motor_tilt rotation_euler self tilt step].
    intros -> H0 H90. run_iteration; rewrite ?Hadd in *; try lia; reflexivity.
  - cbn [host_tilt objects motor_tilt rotation_euler self tilt step].
    intros -> H0 H90. run_iteration; rewrite ?Hsub in *; try lia; reflexivity.
  - cbn [self tilt step]. intros H. run_iteration; try reflexivity; lia.
  - cbn [self tilt step]. intros H. run_iteration; try reflexivity; lia.
Qed.

(** One step up and back down on a fresh tracker gives the fresh tracker
    again; a step down from tilt 0 and back up leaves the flag up. *)
Lemma X6_opposite_moves_cancel_witness :
  _decrease_rotation (_increase_rotation fresh) = fresh /\
  _decrease_tilt (_increase_tilt fresh) = fresh /\
  impossible_move (self (_increase_tilt (_decrease_tilt fresh))) = true /\
  tilt (self (_increase_tilt (_decrease_tilt fresh))) = 0.
Proof.
  destruct (X6_opposite_moves_cancel fresh)
    as ((_ & _ & _ & Ht) & Hrot & Htilt & _ & _ & Hflag).
  split; [apply Hrot; reflexivity|].
  split; [apply Htilt; [reflexivity | vm_compute; discriminate | vm_compute; discriminate]|].
  split; [apply Hflag; reflexivity | exact Ht].
Defined.

(** X7. The two axes are independent: a rotation move and a tilt move
    give the same world in either order, in every world. *)
Theorem X7_axes_commute : forall w,
  _increase_rotation (_increase_tilt w) = _increase_tilt (_increase_rotation w) /\
  _increase_rotation (_decrease_tilt w) = _decrease_tilt (_increase_rotation w) /\
  _decrease_rotation (_increase_tilt w) = _increase_tilt (_decrease_rotation w) /\
  _decrease_rotation (_decrease_tilt w) = _decrease_tilt (_decrease_rotation w).
Proof.
  intros w. destruct w as [[] [[] []]].
  run_iteration; repeat split.
Qed.

(** ** The keyframe timeline *)

Lemma stride_frames_succ : forall n,
  stride_frames (S n) = stride_frames n ++ [5 * Z.of_nat (S n)].
Proof.
  intros n. unfold stride_frames. rewrite seq_S, map_app. reflexivity.
Qed.

Lemma move_keeps_timeline : forall m w,
  m = _increase_tilt \/ m = _decrease_tilt \/
  m = _increase_rotation \/ m = _decrease_rotation ->
  frame_no (self (m w)) = frame_no (self w) /\
  frame_step (self (m w)) = frame_step (self w) /\
  tilt_keyframes (m w) = tilt_keyframes w /\
  rotation_keyframes (m w) = rotation_keyframes w.
Proof.
  intros m w Hm. destruct w as [[] [[] []]].
  destruct Hm as [-> | [-> | [-> | ->]]]; run_iteration; repeat split.
Qed.

(** One call either leaves the timeline alone or advances the frame number
    by the stride and appends one keyframe per motor at the new number. *)
Lemma step_op_timeline : forall to_gray o w w',
  step_op to_gray o w = Returned w' ->
  frame_step (self w') = frame_step (self w) /\
  ((frame_no (self w') = frame_no (self w) /\
    tilt_keyframes w' = tilt_keyframes w /\
    rotation_keyframes w' = rotation_keyframes w) \/
   (frame_no (self w') = frame_no (self w) + frame_step (self w) /\
    (exists a, tilt_keyframes w' = tilt_keyframes w ++ [(frame_no (self w'), a)]) /\
    (exists a, rotation_keyframes w' = rotation_keyframes w ++ [(frame_no (self w'), a)]))).
Proof.
  intros to_gray o w w' H.
  destruct (step_op_after_command _ _ _ _ H)
    as [-> | [-> | [-> | [-> | (frame & dx & dy & ->)]]]];
    try (match goal with
         | |- context [frame_step (self (?m w))] =>
             destruct (move_keeps_timeline m w) as (Hn & Hf & Ht & Hr); [auto|];
             split; [exact Hf | left; repeat split; assumption]
         end).
  destruct (after_command_effect to_gray frame dx dy w)
    as (_ & _ & _ & _ & _ & _ & _ & Hf & _ & _ & _ & _ & _ & Hn & Ht & Hr).
  split; [exact Hf|].
  destruct dy; try (left; repeat split; assumption).
  right. split; [exact Hn|]. rewrite Hn.
  split; eexists; [exact Ht | exact Hr].
Qed.

(** X8. The tracker keyframes on a regular grid.  After any sequence of
    calls on a tracker built by [__init__] the frame number is 5 n for
    some n not larger than the number of calls, and the keyframes that the
    tracker added to each motor, behind those the scene already had, are
    exactly n, at the frames 5, 10, ..., 5 n in this order: both motors are
    keyed at the same frames and never twice at one frame. *)
Theorem X8_keyframes_on_the_stride : forall to_gray scene ops w,
  run to_gray ops (__init__ scene) = Returned w ->
  exists n tks rks,
    (n <= List.length ops)%nat /\
    frame_no (self w) = 5 * Z.of_nat n /\
    tilt_keyframes w = keyframes (motor_tilt scene) ++ tks /\
    rotation_keyframes w = keyframes (motor_rotate scene) ++ rks /\
    map fst tks = stride_frames n /\
    map fst rks = stride_frames n /\
    NoDup (stride_frames n).
Proof.
  intros to_gray scene ops w Hrun.
  assert (Hgen : forall ops w0 n0 tks0 rks0,
            frame_step (self w0) = 5 ->
            frame_no (self w0) = 5 * Z.of_nat n0 ->
            tilt_keyframes w0 = keyframes (motor_tilt scene) ++ tks0 ->
            rotation_keyframes w0 = keyframes (motor_rotate scene) ++ rks0 ->
            map fst tks0 = stride_frames n0 ->
            map fst rks0 = stride_frames n0 ->
            run to_gray ops w0 = Returned w ->
            exists n tks rks,
              (n <= n0 + List.length ops)%nat /\
              frame_no (self w) = 5 * Z.of_nat n /\
              tilt_keyframes w = keyframes (motor_tilt scene) ++ tks /\
              rotation_keyframes w = keyframes (motor_rotate scene) ++ rks /\
              map fst tks = stride_frames n /\
              map fst rks = stride_frames n).
  { clear ops Hrun. induction ops as [|o ops IH];
      intros w0 n0 tks0 rks0 Hf Hn Ht Hr Hmt Hmr Hrun.
    - cbn [run] in Hrun. injection Hrun as <-.
      exists n0, tks0, rks0. repeat split; try assumption. lia.
    - cbn [run] in Hrun. destruct (step_op to_gray o w0) as [w1|e] eqn:Hstep;
        [cbn [bind] in Hrun | discriminate Hrun].
      destruct (step_op_timeline _ _ _ _ Hstep)
        as [Hf1 [(Hn1 & Ht1 & Hr1) | (Hn1 & [a Ht1] & [b Hr1])]].
      + destruct (IH w1 n0 tks0 rks0) as (n & tks & rks & Hle & Hrest);
          try congruence.
        exists n, tks, rks. split; [cbn [List.length]; lia | exact Hrest].
      + destruct (IH w1 (S n0) (tks0 ++ [(frame_no (self w1), a)])
                    (rks0 ++ [(frame_no (self w1), b)]))
          as (n & tks & rks & Hle & Hrest).
        * congruence.
        * rewrite Hn1, Hn, Hf, Nat2Z.inj_succ. lia.
        * rewrite Ht1, Ht, <- app_assoc. reflexivity.
        * rewrite Hr1, Hr, <- app_assoc. reflexivity.
        * rewrite map_app, Hmt, stride_frames_succ. cbn [map fst].
          rewrite Hn1, Hn, Hf, Nat2Z.inj_succ. do 2 f_equal. lia.
        * rewrite map_app, Hmr, stride_frames_succ. cbn [map fst].
          rewrite Hn1, Hn, Hf, Nat2Z.inj_succ. do 2 f_equal. lia.
        * exact Hrun.
        * exists n, tks, rks. split; [cbn [List.length]; lia | exact Hrest]. }
  destruct (Hgen ops (__init__ scene) 0%nat [] []) as (n & tks & rks & Hle & H1 & H2 & H3 & H4 & H5);
    try reflexivity; try exact Hrun.
  - unfold tilt_keyframes. cbn. rewrite app_nil_r. reflexivity.
  - unfold rotation_keyframes. cbn. rewrite app_nil_r. reflexivity.
  - exists n, tks, rks. repeat split; try assumption.
    unfold stride_frames. apply Finite.Injective_map_NoDup; [|apply seq_NoDup].
    intros a b Hab. lia.
Qed.

(** Two iterations that look up with a rotation in between, on a scene
    whose motors have no keyframes: the tilt keyframes are at 5 and 10. *)
Lemma X8_keyframes_on_the_stride_witness :
  exists w, run luma [Iterate [[white]]; IncreaseRotation; Iterate [[white]]] fresh
              = Returned w /\
    frame_no (self w) = 10 /\
    map fst (tilt_keyframes w) = [5; 10] /\
    map fst (rotation_keyframes w) = [5; 10].
Proof.
  destruct (run luma [Iterate [[white]]; IncreaseRotation; Iterate [[white]]] fresh)
    as [w|e] eqn:Hrun; [|vm_compute in Hrun; discriminate Hrun].
  destruct (X8_keyframes_on_the_stride luma scene0 _ w Hrun) as (n & _).
  vm_compute in Hrun. injection Hrun as <-.
  eexists. split; [reflexivity|]. repeat split.
Defined.

(** X9. Keyframing does not look at the flag.  When the vertical direction
    is UP and the step up is refused (the new counter is above 90), the
    iteration still advances the frame number by the stride and still
    appends a tilt keyframe, which records the angle the motor already
    had.  When the direction is DOWN and the step down is refused, the
    timeline is left alone. *)
Theorem X9_refused_step_up_is_keyframed : forall to_gray frame w dx,
  cv2.empty frame = false ->
  (move_command (center (self w)) (t (self w)) (bright_spot to_gray frame) = (dx, UP) ->
   90 < tilt (self w) + step (self w) ->
   exists w', iterate to_gray frame w = Returned w' /\
     impossible_move (self w') = true /\
     host_tilt w' = host_tilt w /\
     frame_no (self w') = frame_no (self w) + frame_step (self w) /\
     tilt_keyframes w' = tilt_keyframes w ++ [(frame_no (self w'), host_tilt w)]) /\
  (move_command (center (self w)) (t (self w)) (bright_spot to_gray frame) = (dx, DOWN) ->
   tilt (self w) - step (self w) < 0 ->
   exists w', iterate to_gray frame w = Returned w' /\
     impossible_move (self w') = true /\
     host_tilt w' = host_tilt w /\
     frame_no (self w') = frame_no (self w) /\
     tilt_keyframes w' = tilt_keyframes w /\
     rotation_keyframes w' = rotation_keyframes w).
Proof.
  intros to_gray frame w dx Hne. split; intros Hd Hover.
  - exists (after_command to_gray frame (dx, UP) w).
    split; [exact (iterate_after_command _ _ _ _ Hne Hd)|].
    destruct (after_command_effect to_gray frame dx UP w)
      as (_ & _ & _ & _ & _ & _ & _ & _ & _ & _ & _ & Hh & Hi & Hn & Hk & _).
    destruct (Z.ltb_spec 90 (tilt (self w) + step (self w))) as [_ | Hle]; [|lia].
    rewrite Hk, Hn, Hh. repeat split. exact Hi.
  - exists (after_command to_gray frame (dx, DOWN) w).
    split; [exact (iterate_after_command _ _ _ _ Hne Hd)|].
    destruct (after_command_effect to_gray frame dx DOWN w)
      as (_ & _ & _ & _ & _ & _ & _ & _ & _ & _ & _ & Hh & Hi & Hn & Hk & Hr).
    destruct (Z.ltb_spec (tilt (self w) - step (self w)) 0) as [_ | Hle]; [|lia].
    repeat split; assumption.
Qed.

(** At tilt 90 a spot at (0, 0) asks for a step up: the step is refused,
    the frame number goes from 0 to 5 and the keyframe at 5 records the 90
    degrees that the motor keeps. *)
Lemma X9_refused_step_up_is_keyframed_witness :
  exists w', iterate luma [[white]] at_upper_bound = Returned w' /\
    impossible_move (self w') = true /\
    host_tilt w' = math.radians 90 /\
    tilt_keyframes w' = [(5, math.radians 90)].
Proof.
  destruct (X9_refused_step_up_is_keyframed luma [[white]] at_upper_bound LEFT eq_refl)
    as [Hup _].
  destruct Hup as (w' & Hit & Hi & Hh & Hn & Hk).
  - vm_compute. reflexivity.
  - vm_compute. reflexivity.
  - exists w'. split; [exact Hit|]. split; [exact Hi|].
    split; [rewrite Hh; vm_compute; reflexivity|].
    rewrite Hk, Hn. vm_compute. reflexivity.
Defined.

(** ** The driver *)

Lemma iterate_within : forall to_gray frame w w' k,
  0 <= k ->
  within k w ->
  iterate to_gray frame w = Returned w' ->
  within (k + 1) w'.
Proof.
  intros to_gray frame w w' k Hk Hin H.
  pose proof (iterate_returned _ _ _ _ H) as Hne.
  destruct (move_command (center (self w)) (t (self w)) (bright_spot to_gray frame))
    as [dx dy] eqn:Hd.
  rewrite (iterate_after_command _ _ _ _ Hne Hd) in H. injection H as <-.
  destruct (after_command_effect to_gray frame dx dy w)
    as (_ & _ & Hs & _ & _ & _ & _ & Hf & Hr & Hhr & Ht & Hht & _ & Hn & _).
  destruct Hin as (Hs0 & Hf0 & Ht0 & Hr0 & Hn0 & Hh0 & Hsync).
  unfold within. rewrite Hs, Hf, Hr, Hhr, Ht, Hht, Hn, Hs0, Hf0.
  split; [reflexivity|]. split; [reflexivity|].
  split; [destruct dy; lia|]. split; [destruct dx; lia|].
  split; [destruct dy; lia|]. split.
  - destruct dy; try lia.
    + destruct (tilt (self w) - 1 <? 0); cbn [math.degrees]; lia.
    + destruct (90 <? tilt (self w) + 1); cbn [math.degrees]; lia.
  - destruct dx; try exact Hsync; reflexivity.
Qed.

Lemma main_loop_completes : forall to_gray frames range stdout w k,
  0 <= k ->
  within k w ->
  reachable to_gray w ->
  (forall i, In i range -> cv2.empty (frames i) = false) ->
  exists w',
    main_loop to_gray frames range stdout w = (stdout ++ range, Returned w') /\
    within (k + Z.of_nat (List.length range)) w' /\
    reachable to_gray w'.
Proof.
  intros to_gray frames range. induction range as [|i range IH];
    intros stdout w k Hk Hin Hreach Hne.
  - exists w. cbn [main_loop List.length Z.of_nat].
    rewrite app_nil_r, Z.add_0_r. split; [reflexivity|]. split; assumption.
  - cbn [main_loop].
    destruct (move_command (center (self w)) (t (self w)) (bright_spot to_gray (frames i)))
      as [dx dy] eqn:Hd.
    assert (Hit : iterate to_gray (frames i) w =
                  Returned (after_command to_gray (frames i) (dx, dy) w)).
    { apply iterate_after_command; [apply Hne; left; reflexivity | exact Hd]. }
    rewrite Hit.
    destruct (IH (stdout ++ [i]) (after_command to_gray (frames i) (dx, dy) w) (k + 1))
      as (w' & Hloop & Hin' & Hreach').
    + lia.
    + exact (iterate_within _ _ _ _ _ Hk Hin Hit).
    + exact (reachable_step to_gray (Iterate (frames i)) w _ Hreach Hit).
    + intros j Hj. apply Hne. right. exact Hj.
    + exists w'. rewrite Hloop, <- app_assoc. cbn [app].
      split; [reflexivity|]. split; [|exact Hreach'].
      replace (k + Z.of_nat (List.length (i :: range)))
        with (k + 1 + Z.of_nat (List.length range))
        by (cbn [List.length]; lia).
      exact Hin'.
Qed.

(** X10. The program as shipped.  When each of the 50 rendered frames has
    pixels, [__main__] prints 0, 1, ..., 49 and ends without an exception,
    in a world where tilt and rotation are within [-50, 50], the frame
    number is within [0, 250], the rotate motor holds the rotation counter
    and the tilt motor holds between -50 and 50 degrees: the 50 iterations
    cannot bring the tilt motor above its upper bound of 90. *)
Theorem X10_main_completes : forall to_gray scene frames,
  (forall i, (i < 50)%nat -> cv2.empty (frames i) = false) ->
  exists w,
    main to_gray scene frames = (seq 0 50, Returned w) /\
    reachable to_gray w /\
    -50 <= tilt (self w) <= 50 /\
    -50 <= rotation (self w) <= 50 /\
    0 <= frame_no (self w) <= 250 /\
    -50 <= math.degrees (host_tilt w) <= 50 /\
    host_rotation w = math.radians (rotation (self w)).
Proof.
  intros to_gray scene frames Hne. unfold main.
  destruct (main_loop_completes to_gray frames (seq 0 50) [] (__init__ scene) 0)
    as (w & Hloop & Hin & Hreach).
  - lia.
  - unfold within. cbn. repeat split; lia.
  - apply reachable_init.
  - intros i Hi. apply Hne. apply in_seq in Hi. lia.
  - exists w. split; [exact Hloop|]. split; [exact Hreach|].
    rewrite length_seq in Hin. change (0 + Z.of_nat 50) with 50 in Hin.
    destruct Hin as (_ & _ & Ht & Hr & Hn & Hh & Hsync).
    repeat split; try lia. exact Hsync.
Qed.

(** The spot stays at (0, 0) in all 50 frames: the program prints 0 to 49
    and ends with tilt 50, rotation 50 and frame 250. *)
Lemma X10_main_completes_witness :
  exists w, main luma scene0 (fun _ => [[white]]) = (seq 0 50, Returned w) /\
    tilt (self w) = 50 /\ rotation (self w) = 50 /\ frame_no (self w) = 250.
Proof.
  destruct (X10_main_completes luma scene0 (fun _ => [[white]])) as (w & Hmain & _).
  - intros i _. reflexivity.
  - vm_compute in Hmain. injection Hmain as <-.
    eexists. split; [vm_compute; reflexivity|]. repeat split.
Defined.

Lemma main_loop_fails : forall to_gray frames before k after stdout w,
  (forall i, In i before -> cv2.empty (frames i) = false) ->
  cv2.empty (frames k) = true ->
  main_loop to_gray frames (before ++ k :: after) stdout w =
    (stdout ++ before ++ [k], Raised PIL.error).
Proof.
  intros to_gray frames before. induction before as [|i before IH];
    intros k after stdout w Hne He.
  - cbn [app main_loop]. rewrite (iterate_empty _ _ _ He). reflexivity.
  - cbn [app main_loop].
    destruct (move_command (center (self w)) (t (self w)) (bright_spot to_gray (frames i)))
      as [dx dy] eqn:Hd.
    rewrite (iterate_after_command to_gray (frames i) w (dx, dy));
      [|apply Hne; left; reflexivity | exact Hd].
    rewrite IH; [|intros j Hj; apply Hne; right; exact Hj | exact He].
    rewrite <- app_assoc. reflexivity.
Qed.

(** X11. The program has no handler: when the frame rendered in iteration
    k < 50 is the first one without pixels, [__main__] has printed 0, ..., k
    and ends there with the exception that Pillow raises when the sensor
    saves that frame, before the locator calls OpenCV; the iterations
    after k do not run. *)
Theorem X11_main_stops_at_first_empty_frame : forall to_gray scene frames k,
  (k < 50)%nat ->
  (forall i, (i < k)%nat -> cv2.empty (frames i) = false) ->
  cv2.empty (frames k) = true ->
  main to_gray scene frames = (seq 0 (S k), Raised PIL.error).
Proof.
  intros to_gray scene frames k Hk Hne He. unfold main.
  replace (seq 0 50) with (seq 0 k ++ k :: seq (S k) (50 - S k)).
  - rewrite (main_loop_fails to_gray frames (seq 0 k) k); [| |exact He].
    + rewrite seq_S. reflexivity.
    + intros i Hi. apply Hne. apply in_seq in Hi. lia.
  - change (k :: seq (S k) (50 - S k)) with (seq k (S (50 - S k))).
    rewrite <- seq_app. f_equal. lia.
Qed.

(** Two good frames, then a frame without rows: 0, 1 and 2 are printed and
    the program ends with Pillow's exception. *)
Lemma X11_main_stops_at_first_empty_frame_witness :
  main luma scene0 (fun i => if (i <? 2)%nat then [[white]] else [])
    = ([0; 1; 2]%nat, Raised PIL.error).
Proof.
  apply (X11_main_stops_at_first_empty_frame luma scene0
           (fun i => if (i <? 2)%nat then [[white]] else []) 2%nat).
  - repeat constructor.
  - intros i Hi. destruct i as [|[|i]]; [reflexivity | reflexivity | lia].
  - reflexivity.
Defined.

(** ** A spot that stays where it is *)

Lemma iterate_n_still : forall to_gray frame dx dy n w,
  cv2.empty frame = false ->
  move_command (center (self w)) (t (self w)) (bright_spot to_gray frame) = (dx, dy) ->
  exists w', iterate_n to_gray n frame w = Returned w' /\
    step (self w') = step (self w) /\
    frame_step (self w') = frame_step (self w) /\
    center (self w') = center (self w) /\
    t (self w') = t (self w) /\
    rotation (self w') = rotation (self w) + Z.of_nat n *
      match dx with RIGHT => - step (self w) | LEFT => step (self w) | _ => 0 end /\
    tilt (self w') = tilt (self w) + Z.of_nat n *
      match dy with DOWN => - step (self w) | UP => step (self w) | _ => 0 end /\
    frame_no (self w') = frame_no (self w) + Z.of_nat n *
      match dy with UP => frame_step (self w) | _ => 0 end /\
    List.length (tilt_keyframes w') =
      (List.length (tilt_keyframes w) + match dy with UP => n | _ => 0 end)%nat.
Proof.
  intros to_gray frame dx dy n. induction n as [|n IH]; intros w Hne Hd.
  - exists w. cbn [iterate_n Z.of_nat]. repeat split; try lia.
    destruct dy; lia.
  - cbn [iterate_n]. rewrite (iterate_after_command _ _ _ _ Hne Hd). cbn [bind].
    destruct (after_command_effect to_gray frame dx dy w)
      as (_ & _ & Hs & Hc & Ht & _ & _ & Hf & Hr & _ & Hti & _ & _ & Hn & Hk & _).
    destruct (IH (after_command to_gray frame (dx, dy) w) Hne)
      as (w' & Hrun & Hs' & Hf' & Hc' & Ht' & Hr' & Hti' & Hn' & Hk').
    { rewrite Hc, Ht. exact Hd. }
    exists w'. split; [exact Hrun|].
    rewrite Hs', Hf', Hc', Ht', Hr', Hti', Hn', Hk', Hs, Hf, Hc, Ht, Hr, Hti, Hn, Hk.
    rewrite Nat2Z.inj_succ. unfold Z.succ.
    split; [reflexivity|]. split; [reflexivity|].
    split; [reflexivity|]. split; [reflexivity|].
    split; [destruct dx; ring|]. split; [destruct dy; ring|].
    split; [destruct dy; ring|].
    destruct dy; try lia. rewrite List.length_app. cbn [List.length]. lia.
Qed.

(** X12. A spot that stays.  When the same frame is presented n times and
    its bright spot is classified (dx, dy) by the tracker, the n iterations
    return and repeat the same move n times: rotation changes by n steps
    (down for RIGHT, up for LEFT, not at all for CENTER), tilt by n steps
    (down for DOWN, up for UP), and for UP the frame number advances by n
    strides and n tilt keyframes are added; the counters move whether or
    not the tilt moves are accepted. *)
Theorem X12_still_spot_repeats_the_move : forall to_gray frame n w dx dy,
  cv2.empty frame = false ->
  move_command (center (self w)) (t (self w)) (bright_spot to_gray frame) = (dx, dy) ->
  exists w', iterate_n to_gray n frame w = Returned w' /\
    rotation (self w') = rotation (self w) + Z.of_nat n *
      match dx with RIGHT => - step (self w) | LEFT => step (self w) | _ => 0 end /\
    tilt (self w') = tilt (self w) + Z.of_nat n *
      match dy with DOWN => - step (self w) | UP => step (self w) | _ => 0 end /\
    frame_no (self w') = frame_no (self w) + Z.of_nat n *
      match dy with UP => frame_step (self w) | _ => 0 end /\
    List.length (tilt_keyframes w') =
      (List.length (tilt_keyframes w) + match dy with UP => n | _ => 0 end)%nat.
Proof.
  intros to_gray frame n w dx dy Hne Hd.
  destruct (iterate_n_still to_gray frame dx dy n w Hne Hd)
    as (w' & Hrun & _ & _ & _ & _ & Hr & Ht & Hn & Hk).
  exists w'. repeat split; assumption.
Qed.

(** The spot at (0, 0) shown 100 times to a fresh tracker: rotation 100,
    tilt 100 (the last ten steps up were refused), frame 500 and 100 tilt
    keyframes. *)
Lemma X12_still_spot_repeats_the_move_witness :
  exists w', iterate_n luma 100 [[white]] fresh = Returned w' /\
    rotation (self w') = 100 /\ tilt (self w') = 100 /\
    frame_no (self w') = 500 /\
    List.length (tilt_keyframes w') = 100%nat.
Proof.
  destruct (X12_still_spot_repeats_the_move luma [[white]] 100 fresh LEFT UP
              eq_refl eq_refl) as (w' & Hrun & Hr & Ht & Hn & Hk).
  exists w'. split; [exact Hrun|].
  split; [rewrite Hr; reflexivity|]. split; [rewrite Ht; reflexivity|].
  split; [rewrite Hn; reflexivity | rewrite Hk; reflexivity].
Defined.

(** ** The bright spot *)

Lemma scan_row_fold : forall row y x acc,
  cv2.scan_row (fun v m => m <? v) y x row acc =
    fold_left keep_max (row_entries y x row) acc.
Proof.
  induction row as [|v row IH]; intros y x acc.
  - reflexivity.
  - cbn [cv2.scan_row row_entries fold_left]. rewrite IH.
    f_equal; destruct acc as [[m loc]|]; reflexivity.
Qed.

Lemma scan_rows_fold : forall rows y acc,
  cv2.scan_rows (fun v m => m <? v) y rows acc =
    fold_left keep_max (entries y rows) acc.
Proof.
  induction rows as [|row rows IH]; intros y acc.
  - reflexivity.
  - cbn [cv2.scan_rows entries]. rewrite fold_left_app, IH, scan_row_fold. reflexivity.
Qed.

(** The maximum scan started with a value: either no later pixel is
    larger, or the result is the first of the largest later pixels. *)
Lemma fold_keep_max_some : forall l m mloc,
  (fold_left keep_max l (Some (m, mloc)) = Some (m, mloc) /\
   forall e, In e l -> fst e <= m) \/
  (exists pre v loc post,
     l = pre ++ (v, loc) :: post /\
     fold_left keep_max l (Some (m, mloc)) = Some (v, loc) /\
     m < v /\
     (forall e, In e pre -> fst e < v) /\
     (forall e, In e post -> fst e <= v)).
Proof.
  induction l as [|[v loc] l IH]; intros m mloc.
  - left. split; [reflexivity | intros e []].
  - cbn [fold_left keep_max fst].
    destruct (Z.ltb_spec m v) as [Hlt | Hge].
    + right. destruct (IH v loc) as [[Hres Hall] | (pre & v' & loc' & post & Hl & Hres & Hlt' & Hpre & Hpost)].
      * exists [], v, loc, l. repeat split; try assumption. intros e [].
      * exists ((v, loc) :: pre), v', loc', post.
        split; [rewrite Hl; reflexivity|]. split; [exact Hres|].
        split; [lia|]. split; [|exact Hpost].
        intros e [<- | He]; [exact Hlt' | exact (Hpre e He)].
    + destruct (IH m mloc) as [[Hres Hall] | (pre & v' & loc' & post & Hl & Hres & Hlt' & Hpre & Hpost)].
      * left. split; [exact Hres|]. intros e [<- | He]; [exact Hge | exact (Hall e He)].
      * right. exists ((v, loc) :: pre), v', loc', post.
        split; [rewrite Hl; reflexivity|]. split; [exact Hres|].
        split; [exact Hlt'|]. split; [|exact Hpost].
        intros e [<- | He]; [cbn [fst]; lia | exact (Hpre e He)].
Qed.

Lemma fold_keep_max_first : forall l,
  l <> [] ->
  exists pre v loc post,
    l = pre ++ (v, loc) :: post /\
    fold_left keep_max l None = Some (v, loc) /\
    (forall e, In e pre -> fst e < v) /\
    (forall e, In e post -> fst e <= v).
Proof.
  intros [|[v loc] l] Hl; [congruence|]. cbn [fold_left keep_max].
  destruct (fold_keep_max_some l v loc)
    as [[Hres Hall] | (pre & v' & loc' & post & El & Hres & Hlt & Hpre & Hpost)].
  - exists [], v, loc, l. repeat split; try assumption. intros e [].
  - exists ((v, loc) :: pre), v', loc', post.
    split; [rewrite El; reflexivity|]. split; [exact Hres|]. split; [|exact Hpost].
    intros e [<- | He]; [exact Hlt | exact (Hpre e He)].
Qed.

Lemma row_entries_pixel : forall row y0 x0 v x y,
  In (v, (x, y)) (row_entries y0 x0 row) ->
  y = y0 /\ x0 <= x /\ nth_error row (Z.to_nat (x - x0)) = Some v.
Proof.
  induction row as [|u row IH]; intros y0 x0 v x y Hin.
  - destruct Hin.
  - cbn [row_entries] in Hin. destruct Hin as [E | Hin].
    + injection E as -> -> ->. rewrite Z.sub_diag. repeat split. lia.
    + destruct (IH _ _ _ _ _ Hin) as (Hy & Hx & Hnth).
      split; [exact Hy|]. split; [lia|].
      replace (Z.to_nat (x - x0)) with (S (Z.to_nat (x - (x0 + 1)))) by lia.
      exact Hnth.
Qed.

Lemma entries_pixel : forall m y0 v x y,
  In (v, (x, y)) (entries y0 m) ->
  y0 <= y /\ 0 <= x /\
  exists row, nth_error m (Z.to_nat (y - y0)) = Some row /\
              nth_error row (Z.to_nat x) = Some v.
Proof.
  induction m as [|r m IH]; intros y0 v x y Hin.
  - destruct Hin.
  - cbn [entries] in Hin. apply in_app_or in Hin. destruct Hin as [Hin | Hin].
    + destruct (row_entries_pixel _ _ _ _ _ _ Hin) as (-> & Hx & Hnth).
      split; [lia|]. split; [exact Hx|]. exists r.
      rewrite Z.sub_diag. rewrite Z.sub_0_r in Hnth. split; [reflexivity | exact Hnth].
    + destruct (IH _ _ _ _ Hin) as (Hy & Hx & row & Hrow & Hnth).
      split; [lia|]. split; [exact Hx|]. exists row.
      replace (Z.to_nat (y - y0)) with (S (Z.to_nat (y - (y0 + 1)))) by lia.
      split; [exact Hrow | exact Hnth].
Qed.

Lemma row_entries_cover : forall row y0 x0 v,
  In v row -> exists loc, In (v, loc) (row_entries y0 x0 row).
Proof.
  induction row as [|u row IH]; intros y0 x0 v Hin.
  - destruct Hin.
  - destruct Hin as [-> | Hin].
    + eexists. left. reflexivity.
    + destruct (IH y0 (x0 + 1) v Hin) as [loc Hloc]. exists loc. right. exact Hloc.
Qed.

Lemma entries_cover : forall m y0 row v,
  In row m -> In v row -> exists loc, In (v, loc) (entries y0 m).
Proof.
  induction m as [|r m IH]; intros y0 row v Hrow Hv.
  - destruct Hrow.
  - cbn [entries]. destruct Hrow as [-> | Hrow].
    + destruct (row_entries_cover row y0 0 v Hv) as [loc Hloc].
      exists loc. apply in_or_app. left. exact Hloc.
    + destruct (IH (y0 + 1) row v Hrow Hv) as [loc Hloc].
      exists loc. apply in_or_app. right. exact Hloc.
Qed.

Lemma entries_nonempty : forall (m : Mat Z) y0,
  cv2.empty m = false -> entries y0 m <> [].
Proof.
  intros [|[|v row] rows] y0 Hne; try discriminate Hne.
  cbn [entries row_entries app]. discriminate.
Qed.

(** X13. The bright spot that the locator classifies is a pixel of the
    frame with the largest grey value, and the first such pixel when the
    rows are read from the top and each row from the left: on a frame that
    has pixels, the spot (x, y) is column x of row y of the grey raster, no
    pixel of the raster is brighter, and every pixel read before it is
    strictly darker. *)
Theorem X13_bright_spot_is_first_maximum : forall to_gray frame x y,
  cv2.empty frame = false ->
  bright_spot to_gray frame = (x, y) ->
  exists v row,
    0 <= x /\ 0 <= y /\
    nth_error (map (map to_gray) frame) (Z.to_nat y) = Some row /\
    nth_error row (Z.to_nat x) = Some v /\
    (forall row' v', In row' (map (map to_gray) frame) -> In v' row' -> v' <= v) /\
    exists before after,
      entries 0 (map (map to_gray) frame) = before ++ (v, (x, y)) :: after /\
      forall e, In e before -> fst e < v.
Proof.
  intros to_gray frame x y Hne Hspot.
  assert (Hg : cv2.empty (map (map to_gray) frame) = false)
    by (rewrite empty_map; exact Hne).
  set (g := map (map to_gray) frame) in *.
  unfold bright_spot, cv2.minMaxLoc in Hspot. fold g in Hspot.
  pose proof (scan_rows_nonempty (fun v m => v <? m) g Hg) as Hlo.
  destruct (cv2.scan_rows (fun v m => v <? m) 0 g None) as [[mn mnl]|]; [|contradiction].
  rewrite scan_rows_fold in Hspot.
  destruct (fold_keep_max_first (entries 0 g) (entries_nonempty g 0 Hg))
    as (pre & v & loc & post & Hsplit & Hres & Hpre & Hpost).
  rewrite Hres in Hspot. subst loc.
  assert (Hin : In (v, (x, y)) (entries 0 g)).
  { rewrite Hsplit. apply in_or_app. right. left. reflexivity. }
  destruct (entries_pixel g 0 v x y Hin) as (Hy & Hx & row & Hrow & Hnth).
  rewrite Z.sub_0_r in Hrow.
  exists v, row. split; [exact Hx|]. split; [exact Hy|].
  split; [exact Hrow|]. split; [exact Hnth|]. split.
  - intros row' v' Hr' Hv'.
    destruct (entries_cover g 0 row' v' Hr' Hv') as [loc Hloc].
    rewrite Hsplit in Hloc. apply in_app_or in Hloc.
    destruct Hloc as [Hloc | [E | Hloc]].
    + specialize (Hpre _ Hloc). cbn [fst] in Hpre. lia.
    + injection E as <- _. lia.
    + specialize (Hpost _ Hloc). cbn [fst] in Hpost. lia.
  - exists pre, post. split; [exact Hsplit | exact Hpre].
Qed.

(** Two white pixels in a 2 x 3 frame, at (2, 0) and at (0, 1): the bright
    spot is the one read first, (2, 0), and its grey value is 255. *)
Lemma X13_bright_spot_is_first_maximum_witness :
  bright_spot luma [[black; black; white]; [white; black; black]] = (2, 0) /\
  exists v row,
    nth_error (map (map luma) [[black; black; white]; [white; black; black]]) 0
      = Some row /\
    nth_error row 2 = Some v /\ v = 255.
Proof.
  split; [reflexivity|].
  destruct (X13_bright_spot_is_first_maximum luma
              [[black; black; white]; [white; black; black]] 2 0 eq_refl eq_refl)
    as (v & row & _ & _ & Hrow & Hnth & _).
  exists v, row. split; [exact Hrow|]. split; [exact Hnth|].
  cbn in Hrow. injection Hrow as <-. cbn in Hnth. injection Hnth as <-. reflexivity.
Defined.

(** ** Counting the commands *)

Lemma tally_cons : forall d x ds,
  tally d (x :: ds) = (if direction_eqb d x then 1 else 0) + tally d ds.
Proof.
  intros d x ds. unfold tally. cbn [filter].
  destruct (direction_eqb d x); [cbn [List.length]; lia | lia].
Qed.

Lemma run_iterations_count : forall to_gray frames w,
  (forall frame, In frame frames -> cv2.empty frame = false) ->
  center (self w) = 256 -> t (self w) = 32 ->
  step (self w) = 1 -> frame_step (self w) = 5 ->
  exists w', run to_gray (map Iterate frames) w = Returned w' /\
    rotation (self w') = rotation (self w)
      + tally LEFT (map fst (commands to_gray frames))
      - tally RIGHT (map fst (commands to_gray frames)) /\
    tilt (self w') = tilt (self w)
      + tally UP (map snd (commands to_gray frames))
      - tally DOWN (map snd (commands to_gray frames)) /\
    frame_no (self w') = frame_no (self w)
      + 5 * tally UP (map snd (commands to_gray frames)) /\
    Z.of_nat (List.length (tilt_keyframes w')) =
      Z.of_nat (List.length (tilt_keyframes w))
      + tally UP (map snd (commands to_gray frames)) /\
    Z.of_nat (List.length (rotation_keyframes w')) =
      Z.of_nat (List.length (rotation_keyframes w))
      + tally UP (map snd (commands to_gray frames)).
Proof.
  intros to_gray frames. induction frames as [|frame frames IH];
    intros w Hne Hc Ht Hs Hf.
  - exists w. cbn. repeat split; lia.
  - cbn [map run step_op commands].
    fold (commands to_gray frames).
    destruct (move_command 256 32 (bright_spot to_gray frame)) as [dx dy] eqn:Hd.
    rewrite (iterate_after_command to_gray frame w (dx, dy));
      [|apply Hne; left; reflexivity | rewrite Hc, Ht; exact Hd].
    cbn [bind].
    destruct (after_command_effect to_gray frame dx dy w)
      as (_ & _ & Hs1 & Hc1 & Ht1 & _ & _ & Hf1 & Hr & _ & Hti & _ & _ & Hn & Hk & Hrk).
    destruct (IH (after_command to_gray frame (dx, dy) w))
      as (w' & Hrun & Hr' & Hti' & Hn' & Hk' & Hrk'); try congruence.
    { intros f Hin. apply Hne. right. exact Hin. }
    exists w'. split; [exact Hrun|].
    rewrite Hr', Hti', Hn', Hk', Hrk', Hr, Hti, Hn, Hk, Hrk, Hs, Hf.
    cbn [fst snd]. rewrite !tally_cons.
    destruct (move_command_sides 256 32 (bright_spot to_gray frame)) as [Hsx Hsy].
    rewrite Hd in Hsx, Hsy. cbn [fst snd] in Hsx, Hsy.
    destruct Hsx as [-> | [-> | ->]], Hsy as [-> | [-> | ->]];
      cbn [direction_eqb]; rewrite ?List.length_app; cbn [List.length];
      repeat split; lia.
Qed.

(** X14. The counters count the commands.  When a tracker built by
    [__init__] is shown any frames that have pixels, one per iteration,
    all iterations return, and afterwards rotation is the number of LEFT
    commands minus the number of RIGHT commands, tilt is the number of UP
    minus the number of DOWN commands (refused moves included), the frame
    number is 5 times the number of UP commands, and each motor has
    received one keyframe per UP command. *)
Theorem X14_counters_count_the_commands : forall to_gray scene frames,
  (forall frame, In frame frames -> cv2.empty frame = false) ->
  exists w, run to_gray (map Iterate frames) (__init__ scene) = Returned w /\
    rotation (self w) = tally LEFT (map fst (commands to_gray frames))
                        - tally RIGHT (map fst (commands to_gray frames)) /\
    tilt (self w) = tally UP (map snd (commands to_gray frames))
                    - tally DOWN (map snd (commands to_gray frames)) /\
    frame_no (self w) = 5 * tally UP (map snd (commands to_gray frames)) /\
    Z.of_nat (List.length (tilt_keyframes w)) =
      Z.of_nat (List.length (keyframes (motor_tilt scene)))
      + tally UP (map snd (commands to_gray frames)) /\
    Z.of_nat (List.length (rotation_keyframes w)) =
      Z.of_nat (List.length (keyframes (motor_rotate scene)))
      + tally UP (map snd (commands to_gray frames)).
Proof.
  intros to_gray scene frames Hne.
  destruct (run_iterations_count to_gray frames (__init__ scene) Hne)
    as (w & Hrun & Hr & Ht & Hn & Hk & Hrk); try reflexivity.
  exists w. split; [exact Hrun|].
  rewrite Hr, Ht, Hn, Hk, Hrk. repeat split.
Qed.

(** Three frames on a fresh tracker, with the spot at the top left, at
    the bottom right and at the top left again: rotation 1, tilt 1,
    frame 10 and two tilt keyframes. *)
Lemma X14_counters_count_the_commands_witness :
  exists w, run luma
              (map Iterate [[[white]]; spot_frame 300 300 299 299; [[white]]])
              fresh = Returned w /\
    rotation (self w) = 1 /\ tilt (self w) = 1 /\ frame_no (self w) = 10 /\
    List.length (tilt_keyframes w) = 2%nat.
Proof.
  destruct (X14_counters_count_the_commands luma scene0
              [[[white]]; spot_frame 300 300 299 299; [[white]]])
    as (w & Hrun & Hr & Ht & Hn & Hk & _).
  - intros frame [<- | [<- | [<- | []]]]; vm_compute; reflexivity.
  - assert (Hc : commands luma [[[white]]; spot_frame 300 300 299 299; [[white]]]
                 = [(LEFT, UP); (RIGHT, DOWN); (LEFT, UP)])
      by (vm_compute; reflexivity).
    rewrite Hc in Hr, Ht, Hn, Hk.
    exists w. split; [exact Hrun|].
    split; [exact Hr|]. split; [exact Ht|]. split; [exact Hn|].
    apply Nat2Z.inj. rewrite Hk. reflexivity.
Defined.
